(** * WebAuthModule: PKCE helpers and the loopback redirect handler

    A shallow embedding of [windows/StarterApp/WebAuthModule.cpp].  The
    module's own code is transcribed function by function; the Win32
    services it calls (CryptoAPI, CNG, Winsock, the shell) are given by
    their documented contracts, with every answer the code branches on
    supplied by an explicit environment record. *)

From Stdlib Require Import ZArith NArith Ascii String Lia Bool List.
From Stdlib.Strings Require Import Byte.
From Stdlib Require Import DecimalString.
Import ListNotations.

Set Implicit Arguments.

(** ** Characters, strings and fixed-width integers *)

(** A [std::string] is a sequence of [char]; a [std::vector<uint8_t>] a
    sequence of bytes. *)
Definition str := list ascii.

Definition lit (s : string) : str := list_ascii_of_string s.

Definition NUL : ascii := Ascii.zero.

Definition char_eqb (a b : ascii) : bool := Ascii.eqb a b.

(** [DWORD] and [ULONG] are unsigned 32-bit; [static_cast<DWORD>] of a
    [size_t] keeps the low 32 bits. *)
Definition DWORD_MAX : Z := 4294967295.

Definition to_DWORD (z : Z) : Z := (z mod 4294967296)%Z.

(** [std::string::resize(n)] with the default fill character. *)
Definition resize (s : str) (n : nat) : str :=
  firstn n s ++ repeat NUL (n - length s).

(** [std::string::find(char)]: index of the first occurrence, [None] for
    [npos]. *)
Fixpoint find (c : ascii) (s : str) : option nat :=
  match s with
  | [] => None
  | x :: s' => if char_eqb x c then Some 0
               else match find c s' with
                    | Some i => Some (S i)
                    | None => None
                    end
  end.

(** [std::string::substr(pos)]. *)
Definition substr (s : str) (pos : nat) : str := skipn pos s.

(** ** Base64 as produced by CryptBinaryToStringA *)

Module Base64.

Definition alphabet : str :=
  lit "ABCDEFGHIJKLMNOPQRSTUVWXYZabcdefghijklmnopqrstuvwxyz0123456789+/".

Definition pad : ascii := "="%char.

Definition digit (v : N) : ascii := nth (N.to_nat v) alphabet pad.

(** RFC 4648 section 4: three octets give four sextets; a final group of
    one or two octets is zero-filled and padded with '='. *)
Fixpoint encode (data : list byte) : str :=
  match data with
  | [] => []
  | [a] =>
      let n0 := Byte.to_N a in
      [digit (n0 / 4); digit ((n0 mod 4) * 16); pad; pad]
  | [a; b] =>
      let n0 := Byte.to_N a in
      let n1 := Byte.to_N b in
      [digit (n0 / 4); digit ((n0 mod 4) * 16 + n1 / 16);
       digit ((n1 mod 16) * 4); pad]
  | a :: b :: c :: rest =>
      let n0 := Byte.to_N a in
      let n1 := Byte.to_N b in
      let n2 := Byte.to_N c in
      digit (n0 / 4) :: digit ((n0 mod 4) * 16 + n1 / 16)
        :: digit ((n1 mod 16) * 4 + n2 / 64) :: digit (n2 mod 64)
        :: encode rest
  end%N.

(** The inverse table. *)
Fixpoint index_of (c : ascii) (l : str) (i : N) : option N :=
  match l with
  | [] => None
  | x :: l' => if char_eqb x c then Some i else index_of c l' (N.succ i)
  end.

Definition value (c : ascii) : option N := index_of c alphabet 0%N.

Definition byte_of_N (n : N) : byte :=
  match Byte.of_N (n mod 256) with
  | Some b => b
  | None => x00
  end.

(** The standard decoder: input in groups of four characters, padding
    only in the last group. *)
Fixpoint decode (s : str) : option (list byte) :=
  match s with
  | [] => Some []
  | c0 :: c1 :: c2 :: c3 :: rest =>
      match value c0, value c1 with
      | Some v0, Some v1 =>
          let b0 := byte_of_N (v0 * 4 + v1 / 16) in
          if char_eqb c2 pad then
            if char_eqb c3 pad then
              match rest with [] => Some [b0] | _ => None end
            else None
          else
            match value c2 with
            | Some v2 =>
                let b1 := byte_of_N ((v1 mod 16) * 16 + v2 / 4) in
                if char_eqb c3 pad then
                  match rest with [] => Some [b0; b1] | _ => None end
                else
                  match value c3, decode rest with
                  | Some v3, Some tl =>
                      Some (b0 :: b1 :: byte_of_N ((v2 mod 4) * 64 + v3) :: tl)
                  | _, _ => None
                  end
            | None => None
            end
      | _, _ => None
      end
  | _ => None
  end%N.

End Base64.

(** [CryptBinaryToStringA(pbBinary, cbBinary,
    CRYPT_STRING_BASE64 | CRYPT_STRING_NOCRLF, pszString, pcchString)].
    With [pszString = nullptr] the call stores the number of characters
    needed, terminating NUL included; with a buffer it writes the text and
    the NUL and stores the number of characters written, the NUL not
    counted.  When the count does not fit a [DWORD], or the buffer is too
    small, the call fails and leaves its outputs untouched.  The result
    is the pair of the buffer and [*pcchString] after the call. *)
Definition CryptBinaryToStringA (pbBinary : list byte) (cbBinary : Z)
    (pszString : option str) (pcchString : Z) : option str * Z :=
  let text := Base64.encode (firstn (Z.to_nat cbBinary) pbBinary) in
  let need := (Z.of_nat (length text) + 1)%Z in
  if (DWORD_MAX <? need)%Z then (pszString, pcchString)
  else
    match pszString with
    | None => (None, need)
    | Some buf =>
        if (pcchString <? need)%Z then (pszString, pcchString)
        else (Some (text ++ NUL :: skipn (Z.to_nat need) buf),
              Z.of_nat (length text))
    end.

(** The conversion loop of [Base64UrlEncode]: one step per character. *)
Definition base64url_step (result : str) (c : ascii) : str :=
  if char_eqb c "+" then result ++ ["-"%char]
  else if char_eqb c "/" then result ++ ["_"%char]
  else if char_eqb c "=" then result
  else result ++ [c].

Definition Base64UrlEncode (data : list byte) : str :=
  let cbBinary := to_DWORD (Z.of_nat (length data)) in
  let base64Len := 0%Z in
  let '(_, base64Len) := CryptBinaryToStringA data cbBinary None base64Len in
  let base64 := repeat NUL (Z.to_nat base64Len) in
  let '(written, base64Len) :=
    CryptBinaryToStringA data cbBinary (Some base64) base64Len in
  let base64 := match written with Some b => b | None => base64 end in
  let base64 := resize base64 (Z.to_nat base64Len) in
  fold_left base64url_step base64 [].

(** The reader's side of base64url: put the two characters back, restore
    the padding, decode. *)
Definition base64url_unswap (c : ascii) : ascii :=
  if char_eqb c "-" then "+"%char
  else if char_eqb c "_" then "/"%char
  else c.

Definition add_padding (s : str) : str :=
  s ++ repeat Base64.pad ((4 - length s mod 4) mod 4).

Definition Base64UrlDecode (s : str) : option (list byte) :=
  Base64.decode (add_padding (map base64url_unswap s)).

(** ** SHA-256 as computed by the CNG provider *)

(** FIPS 180-4, on 32-bit words held in [N].  This is the function a hash
    object of [BCRYPT_SHA256_ALGORITHM] computes over the data it was
    fed. *)
Module SHA256.

Local Open Scope N_scope.

Definition word (x : N) : N := x mod 4294967296.

Definition add (x y : N) : N := word (x + y).

Definition rotr (n x : N) : N :=
  N.lor (N.shiftr x n) (word (N.shiftl x (32 - n))).

Definition shr (n x : N) : N := N.shiftr x n.

Definition not32 (x : N) : N := N.lxor x 0xffffffff.

Definition Ch (x y z : N) : N := N.lxor (N.land x y) (N.land (not32 x) z).

Definition Maj (x y z : N) : N :=
  N.lxor (N.lxor (N.land x y) (N.land x z)) (N.land y z).

Definition Sigma0 (x : N) : N :=
  N.lxor (N.lxor (rotr 2 x) (rotr 13 x)) (rotr 22 x).

Definition Sigma1 (x : N) : N :=
  N.lxor (N.lxor (rotr 6 x) (rotr 11 x)) (rotr 25 x).

Definition sigma0 (x : N) : N :=
  N.lxor (N.lxor (rotr 7 x) (rotr 18 x)) (shr 3 x).

Definition sigma1 (x : N) : N :=
  N.lxor (N.lxor (rotr 17 x) (rotr 19 x)) (shr 10 x).

(** The round constants are the first 32 bits of the fractional parts
    of the cube roots of the first 64 primes, the initial hash value
    those of the square roots of the first 8. *)
Definition is_prime (p : nat) : bool :=
  forallb (fun d => negb (Nat.eqb (p mod d) 0)) (seq 2 (p - 2)).

Definition primes : list N :=
  map N.of_nat (filter is_prime (seq 2 310)).

(** The integer cube root of [x], for [x] below 2^105, found bit by
    bit. *)
Definition cube_root (x : N) : N :=
  fold_left (fun r i =>
               let r' := r + 2 ^ N.of_nat i in
               if r' * r' * r' <=? x then r' else r)
            (rev (seq 0 35)) 0.

Definition cube_root_bits (p : N) : N :=
  word (cube_root (p * 2 ^ 96)).

Definition square_root_bits (p : N) : N :=
  word (N.sqrt (p * 2 ^ 64)).

Definition K : list N := Eval vm_compute in map cube_root_bits primes.

Record state := State {
  ha : N; hb : N; hc : N; hd : N; he : N; hf : N; hg : N; hh : N
}.

Definition H0 : state :=
  Eval vm_compute in
    match map square_root_bits (firstn 8 primes) with
    | [a; b; c; d; e; f; g; h] => State a b c d e f g h
    | _ => State 0 0 0 0 0 0 0 0
    end.

(** Big-endian words of a block. *)
Fixpoint words (bytes : list N) : list N :=
  match bytes with
  | b0 :: b1 :: b2 :: b3 :: rest =>
      (b0 * 16777216 + b1 * 65536 + b2 * 256 + b3) :: words rest
  | _ => []
  end.

(** The message schedule, newest word first: [recent] holds
    W(t-1), W(t-2), ..., W(t-16). *)
Fixpoint schedule (n : nat) (recent : list N) : list N :=
  match n with
  | O => []
  | S n' =>
      let w := add (add (sigma1 (nth 1 recent 0)) (nth 6 recent 0))
                   (add (sigma0 (nth 14 recent 0)) (nth 15 recent 0)) in
      w :: schedule n' (w :: recent)
  end.

Definition expand (block : list N) : list N :=
  let w16 := words block in
  w16 ++ schedule 48 (rev w16).

Definition round (s : state) (kw : N * N) : state :=
  let '(k, w) := kw in
  let t1 := add (add (add (hh s) (Sigma1 (he s)))
                     (add (Ch (he s) (hf s) (hg s)) k)) w in
  let t2 := add (Sigma0 (ha s)) (Maj (ha s) (hb s) (hc s)) in
  State (add t1 t2) (ha s) (hb s) (hc s) (add (hd s) t1) (he s) (hf s) (hg s).

Definition compress (s : state) (block : list N) : state :=
  let r := fold_left round (combine K (expand block)) s in
  State (add (ha s) (ha r)) (add (hb s) (hb r)) (add (hc s) (hc r))
        (add (hd s) (hd r)) (add (he s) (he r)) (add (hf s) (hf r))
        (add (hg s) (hg r)) (add (hh s) (hh r)).

(** 0x80, zero fill, the bit length on eight bytes. *)
Definition be_bytes (width : nat) (x : N) : list N :=
  map (fun i => (x / 256 ^ N.of_nat i) mod 256) (rev (seq 0 width)).

Definition padding (len : N) : list N :=
  128 :: repeat 0 (N.to_nat ((119 - len mod 64) mod 64))
    ++ be_bytes 8 (8 * len).

Fixpoint blocks (n : nat) (s : state) (bytes : list N) : state :=
  match n with
  | O => s
  | S n' => blocks n' (compress s (firstn 64 bytes)) (skipn 64 bytes)
  end.

Definition output (s : state) : list byte :=
  map Base64.byte_of_N
    (be_bytes 4 (ha s) ++ be_bytes 4 (hb s) ++ be_bytes 4 (hc s)
     ++ be_bytes 4 (hd s) ++ be_bytes 4 (he s) ++ be_bytes 4 (hf s)
     ++ be_bytes 4 (hg s) ++ be_bytes 4 (hh s)).

Definition digest (message : list byte) : list byte :=
  let bytes := map Byte.to_N message in
  let padded := bytes ++ padding (N.of_nat (length bytes)) in
  output (blocks (length padded / 64) H0 padded).

End SHA256.

(** ** The regular expression of the request line *)

(** The fragment of the ECMAScript grammar that [std::regex] is given
    here: single characters, the classes [\s] and [\S], the greedy [+] on
    one of those, and one capture group.  Matching is the backtracking
    search of the standard: alternatives are tried in priority order and
    the first success is the match. *)
Module Regex.

Inductive atom :=
| Chr (c : ascii)
| Space        (* \s *)
| NonSpace.    (* \S *)

Inductive node :=
| One (a : atom)
| OneOrMore (a : atom)
| GroupBegin
| GroupEnd.

Definition regex := list node.

(** [std::isspace] in the classic locale: HT, LF, VT, FF, CR and space. *)
Definition isspace (c : ascii) : bool :=
  let n := nat_of_ascii c in
  ((9 <=? n) && (n <=? 13)) || (n =? 32).

Definition atom_matches (a : atom) (c : ascii) : bool :=
  match a with
  | Chr x => char_eqb c x
  | Space => isspace c
  | NonSpace => negb (isspace c)
  end.

(** The greedy loop: take one more character if it matches, prefer to
    go on looping, fall back to the continuation. *)
Fixpoint repeat_atom (R : Type) (a : atom) (k : str -> nat -> option R)
    (s : str) (pos : nat) : option R :=
  match s with
  | c :: s' =>
      if atom_matches a c then
        match repeat_atom a k s' (S pos) with
        | Some r => Some r
        | None => k s' (S pos)
        end
      else None
  | [] => None
  end.

(** Match [re] against a prefix of [s], which starts at offset [pos] of
    the subject; the result is the span of group 1. *)
Fixpoint match_here (re : regex) (s : str) (pos : nat) (cap : nat * nat)
    : option (nat * nat) :=
  match re with
  | [] => Some cap
  | One a :: re' =>
      match s with
      | c :: s' =>
          if atom_matches a c then match_here re' s' (S pos) cap else None
      | [] => None
      end
  | OneOrMore a :: re' =>
      repeat_atom a (fun s' pos' => match_here re' s' pos' cap) s pos
  | GroupBegin :: re' => match_here re' s pos (pos, snd cap)
  | GroupEnd :: re' => match_here re' s pos (fst cap, pos)
  end.

(** [std::regex_search]: the first offset at which the pattern matches. *)
Fixpoint search_from (re : regex) (s : str) (pos : nat)
    : option (nat * nat) :=
  match match_here re s pos (0, 0) with
  | Some r => Some r
  | None =>
      match s with
      | [] => None
      | _ :: s' => search_from re s' (S pos)
      end
  end.

(** [regex_search(subject, match, re)] followed by [match[1].str()]. *)
Definition regex_search (subject : str) (re : regex) : option str :=
  match search_from re subject 0 with
  | Some (b, e) => Some (firstn (e - b) (skipn b subject))
  | None => None
  end.

End Regex.

Import Regex.

(** [R"(GET\s+(/\S+)\s+HTTP)"]. *)
Definition requestLineRegex : regex :=
  [One (Chr "G"); One (Chr "E"); One (Chr "T"); OneOrMore Space;
   GroupBegin; One (Chr "/"); OneOrMore NonSpace; GroupEnd;
   OneOrMore Space;
   One (Chr "H"); One (Chr "T"); One (Chr "T"); One (Chr "P")].

(** ** Calls observed from outside *)

Inductive JSValue :=
| JSNull
| JSString (s : str).

(** What a run of a module method does to the outside world, in program
    order.  [Resolve] and [Reject] are the two calls on the promise. *)
Inductive event :=
| BCryptGenRandom (cbBuffer status : Z)
| BCryptOpenAlgorithmProvider (status hAlg : Z)
| BCryptCreateHash (hAlg status hHash : Z)
| BCryptHashData (hHash : Z) (pbInput : list byte) (status : Z)
| BCryptFinishHash (hHash cbOutput status : Z)
| BCryptDestroyHash (hHash : Z)
| BCryptCloseAlgorithmProvider (hAlg : Z)
| WSAStartup (ret : Z)
| WSACleanup
| socket (ret : Z)
| bind (s host port ret : Z)
| getsockname (s : Z)
| listen (s backlog ret : Z)
| ShellExecuteW (lpOperation lpFile : list Z)
| setsockopt_SO_RCVTIMEO (s timeout : Z)
| accept (s ret : Z)
| recv (s len ret : Z)
| send (s : Z) (buf : str) (len ret : Z)
| closesocket (s : Z)
| OutOfBounds    (* an access outside [buf]: undefined behaviour *)
| Resolve (value : JSValue)
| Reject (code message : str).

Definition is_terminal (e : event) : bool :=
  match e with
  | Resolve _ | Reject _ _ => true
  | _ => false
  end.

(** The calls made on the promise, in order. *)
Definition promise_calls (tr : list event) : list event :=
  filter is_terminal tr.

(** [BCRYPT_SUCCESS(status)]: an [NTSTATUS] is a signed 32-bit value and
    success is non-negative. *)
Definition BCRYPT_SUCCESS (status : Z) : bool := (0 <=? status)%Z.

Local Open Scope Z_scope.

(** ** generateCodeVerifier *)

(** The system random number generator: whether it answers, and the octets
    it hands out, in the order they are drawn. *)
Record RngEnv := {
  rng_status : Z;
  rng_octet : nat -> byte
}.

(** [BCryptGenRandom(nullptr, pbBuffer, cbBuffer,
    BCRYPT_USE_SYSTEM_PREFERRED_RNG)]: on success the first [cbBuffer]
    bytes of the buffer are overwritten. *)
Definition BCryptGenRandom_call (env : RngEnv) (pbBuffer : list byte)
    (cbBuffer : Z) : Z * list byte :=
  if BCRYPT_SUCCESS (rng_status env) then
    (rng_status env,
     map (rng_octet env) (seq 0 (Z.to_nat cbBuffer))
       ++ skipn (Z.to_nat cbBuffer) pbBuffer)
  else (rng_status env, pbBuffer).

Definition generateCodeVerifier (env : RngEnv) : list event :=
  let randomBytes := repeat x00 32 in
  let cbBuffer := to_DWORD (Z.of_nat (length randomBytes)) in
  let '(status, randomBytes) :=
    BCryptGenRandom_call env randomBytes cbBuffer in
  BCryptGenRandom cbBuffer status ::
  if negb (BCRYPT_SUCCESS status) then
    [Reject (lit "RANDOM_ERROR") (lit "Failed to generate random bytes")]
  else
    [Resolve (JSString (Base64UrlEncode randomBytes))].

(** ** sha256 *)

Definition bytes_of_str (s : str) : list byte := map byte_of_ascii s.

(** The CNG provider: the status of each of the four calls that can
    fail, and the handles it gives out. *)
Record CngEnv := {
  cng_open_status : Z;
  cng_hAlg : Z;
  cng_create_status : Z;
  cng_hHash : Z;
  cng_hash_status : Z;
  cng_finish_status : Z
}.

(** [BCryptFinishHash(hHash, pbOutput, cbOutput, 0)] on a hash object
    that was fed [fed]: on success the digest is written to the
    buffer. *)
Definition BCryptFinishHash_call (env : CngEnv) (fed : list byte)
    (pbOutput : list byte) (cbOutput : Z) : Z * list byte :=
  if BCRYPT_SUCCESS (cng_finish_status env) then
    (cng_finish_status env,
     firstn (Z.to_nat cbOutput) (SHA256.digest fed)
       ++ skipn (Z.to_nat cbOutput) pbOutput)
  else (cng_finish_status env, pbOutput).

Definition sha256 (env : CngEnv) (input : str) : list event :=
  let status := cng_open_status env in
  let hAlg := cng_hAlg env in
  BCryptOpenAlgorithmProvider status hAlg ::
  if negb (BCRYPT_SUCCESS status) then
    [Reject (lit "HASH_ERROR") (lit "Failed to open algorithm provider")]
  else
  let status := cng_create_status env in
  let hHash := cng_hHash env in
  BCryptCreateHash hAlg status hHash ::
  if negb (BCRYPT_SUCCESS status) then
    [BCryptCloseAlgorithmProvider hAlg;
     Reject (lit "HASH_ERROR") (lit "Failed to create hash")]
  else
  let cbInput := to_DWORD (Z.of_nat (length input)) in
  let pbInput := firstn (Z.to_nat cbInput) (bytes_of_str input) in
  let status := cng_hash_status env in
  BCryptHashData hHash pbInput status ::
  if negb (BCRYPT_SUCCESS status) then
    [BCryptDestroyHash hHash;
     BCryptCloseAlgorithmProvider hAlg;
     Reject (lit "HASH_ERROR") (lit "Failed to hash data")]
  else
  let hashValue := repeat x00 32 in
  let cbOutput := to_DWORD (Z.of_nat (length hashValue)) in
  let '(status, hashValue) :=
    BCryptFinishHash_call env pbInput hashValue cbOutput in
  BCryptFinishHash hHash cbOutput status ::
  BCryptDestroyHash hHash ::
  BCryptCloseAlgorithmProvider hAlg ::
  if negb (BCRYPT_SUCCESS status) then
    [Reject (lit "HASH_ERROR") (lit "Failed to finish hash")]
  else
    [Resolve (JSString (Base64UrlEncode hashValue))].

(** ** authenticate *)

(** [(SOCKET)(~0)] and [-1]. *)
Definition INVALID_SOCKET : Z := 18446744073709551615.
Definition SOCKET_ERROR : Z := (-1).

Definition INADDR_LOOPBACK : Z := 2130706433.

(** [ntohs] on a little-endian host: the two bytes of a [u_short]
    swapped. *)
Definition ntohs (netshort : Z) : Z :=
  let x := netshort mod 65536 in
  (x mod 256) * 256 + x / 256.

(** [std::to_string(int)]. *)
Definition to_string (n : Z) : str :=
  lit (NilZero.string_of_int (Z.to_int n)).

(** [char] is signed; the range constructor of [std::wstring] converts
    each [char] to [wchar_t], an unsigned 16-bit unit. *)
Definition char_value (c : ascii) : Z :=
  let n := Z.of_nat (nat_of_ascii c) in
  if n <? 128 then n else n - 256.

Definition to_wchar (c : ascii) : Z := char_value c mod 65536.

Definition wstring_of (s : str) : list Z := map to_wchar s.

(** [c_str()] as read by a callee: the units before the first zero. *)
Fixpoint wide_c_str (w : list Z) : list Z :=
  match w with
  | [] => []
  | x :: w' => if x =? 0 then [] else x :: wide_c_str w'
  end.

(** Reading a [char] array as a C string: the characters before the
    first NUL, or nothing to return when the array holds none. *)
Fixpoint c_string (buf : list ascii) : option str :=
  match buf with
  | [] => None
  | c :: buf' =>
      if char_eqb c NUL then Some []
      else match c_string buf' with
           | Some s => Some (c :: s)
           | None => None
           end
  end.

(** [buf[i] = c]: defined inside the array only. *)
Definition store (buf : list ascii) (i : Z) (c : ascii)
    : option (list ascii) :=
  if (0 <=? i) && (i <? Z.of_nat (length buf)) then
    Some (firstn (Z.to_nat i) buf ++ c :: skipn (S (Z.to_nat i)) buf)
  else None.

(** Winsock, the shell and the peer, as seen by one run: the value each
    call returns, the port the system gave the listener (as
    [getsockname] stores it in [sin_port], network byte order), what
    the stack slot of [buf] held before, and what the peer has sent when
    [recv] is called ([None]: the call fails).  [getsockname] is called
    on a socket that was just bound and its return value is not looked
    at; it is taken to succeed.  [accept] returning [INVALID_SOCKET]
    stands for an error as well as for the time-out set just before. *)
Record NetEnv := {
  net_WSAStartup : Z;
  net_socket : Z;
  net_bind : Z;
  net_sin_port : Z;
  net_listen : Z;
  net_accept : Z;
  net_stack : nat -> ascii;
  net_recv : option str;
  net_send : Z
}.

(** [recv(s, buf, len, 0)]: at most [len] bytes of what has arrived are
    copied to the front of [buf] and counted; zero is an orderly close. *)
Definition recv_call (env : NetEnv) (buf : list ascii) (len : Z)
    : Z * list ascii :=
  match net_recv env with
  | None => (SOCKET_ERROR, buf)
  | Some data =>
      let got := firstn (Z.to_nat len) data in
      (Z.of_nat (length got), got ++ skipn (length got) buf)
  end.

Definition CRLF : str := ["013"; "010"]%char.

Definition response : str :=
  lit "HTTP/1.1 200 OK" ++ CRLF
  ++ lit "Content-Type: text/html" ++ CRLF
  ++ lit "Connection: close" ++ CRLF ++ CRLF
  ++ lit "<html><body><p>Authentication complete. You may close this "
  ++ lit "tab.</p><script>window.close()</script></body></html>".

Definition strlen (s : str) : Z :=
  match c_string (s ++ [NUL]) with
  | Some t => Z.of_nat (length t)
  | None => 0
  end.

(** The body of the detached thread of [authenticate]. *)
Definition authenticate (env : NetEnv) (url callbackScheme : str)
    : list event :=
  WSAStartup (net_WSAStartup env) ::
  if negb (net_WSAStartup env =? 0) then
    [Reject (lit "SOCKET_ERROR") (lit "Failed to initialize Winsock")]
  else
  let listenSock := net_socket env in
  socket listenSock ::
  if listenSock =? INVALID_SOCKET then
    [WSACleanup;
     Reject (lit "SOCKET_ERROR") (lit "Failed to create socket")]
  else
  bind listenSock INADDR_LOOPBACK 0 (net_bind env) ::
  if net_bind env =? SOCKET_ERROR then
    [closesocket listenSock; WSACleanup;
     Reject (lit "SOCKET_ERROR") (lit "Failed to bind socket")]
  else
  getsockname listenSock ::
  let port := ntohs (net_sin_port env) in
  listen listenSock 1 (net_listen env) ::
  if net_listen env =? SOCKET_ERROR then
    [closesocket listenSock; WSACleanup;
     Reject (lit "SOCKET_ERROR") (lit "Failed to listen on socket")]
  else
  let redirectUri :=
    lit "http://127.0.0.1:" ++ to_string port ++ lit "/callback" in
  let fullUrl := url in
  let fullUrl :=
    match find "?" fullUrl with
    | Some _ => fullUrl ++ lit "&redirect_uri=" ++ redirectUri
    | None => fullUrl ++ lit "?redirect_uri=" ++ redirectUri
    end in
  let wUrl := wstring_of fullUrl in
  ShellExecuteW (wstring_of (lit "open")) (wide_c_str wUrl) ::
  let timeout := 60000 in
  setsockopt_SO_RCVTIMEO listenSock timeout ::
  let clientSock := net_accept env in
  accept listenSock clientSock ::
  if clientSock =? INVALID_SOCKET then
    [closesocket listenSock; WSACleanup; Resolve JSNull]
  else
  let buf := map (net_stack env) (seq 0 4096) in
  let len := Z.of_nat (length buf) - 1 in
  let '(bytesRead, buf) := recv_call env buf len in
  recv clientSock len bytesRead ::
  if bytesRead <=? 0 then
    [closesocket clientSock; closesocket listenSock; WSACleanup;
     Resolve JSNull]
  else
  match store buf bytesRead NUL with
  | None => [OutOfBounds]
  | Some buf =>
  send clientSock response (strlen response) (net_send env) ::
  closesocket clientSock ::
  closesocket listenSock ::
  WSACleanup ::
  match c_string buf with
  | None => [OutOfBounds]
  | Some request =>
  match regex_search request requestLineRegex with
  | Some path =>
      match find "?" path with
      | None => [Resolve JSNull]
      | Some qPos =>
          let callbackUrl :=
            callbackScheme ++ lit "://callback" ++ substr path qPos in
          [Resolve (JSString callbackUrl)]
      end
  | None => [Resolve JSNull]
  end
  end
  end.

(** ** Reading a run *)

(** What is held open.  A socket is obtained by a successful [socket] or
    [accept], a CNG handle by a successful open or create call. *)
Inductive resource :=
| Sock (s : Z)
| AlgHandle (h : Z)
| HashHandle (h : Z).

Definition resource_eqb (a b : resource) : bool :=
  match a, b with
  | Sock x, Sock y => x =? y
  | AlgHandle x, AlgHandle y => x =? y
  | HashHandle x, HashHandle y => x =? y
  | _, _ => false
  end.

Definition acquired (e : event) : option resource :=
  match e with
  | socket ret | accept _ ret =>
      if ret =? INVALID_SOCKET then None else Some (Sock ret)
  | BCryptOpenAlgorithmProvider status h =>
      if BCRYPT_SUCCESS status then Some (AlgHandle h) else None
  | BCryptCreateHash _ status h =>
      if BCRYPT_SUCCESS status then Some (HashHandle h) else None
  | _ => None
  end.

Definition released (e : event) : option resource :=
  match e with
  | closesocket s => Some (Sock s)
  | BCryptDestroyHash h => Some (HashHandle h)
  | BCryptCloseAlgorithmProvider h => Some (AlgHandle h)
  | _ => None
  end.

Fixpoint remove_one (r : resource) (held : list resource) : list resource :=
  match held with
  | [] => []
  | x :: held' =>
      if resource_eqb x r then held' else x :: remove_one r held'
  end.

(** The resources still held after the events of [tr], starting from
    [held]. *)
Fixpoint held_after (tr : list event) (held : list resource)
    : list resource :=
  match tr with
  | [] => held
  | e :: tr' =>
      let held := match acquired e with
                  | Some r => r :: held
                  | None => held
                  end in
      let held := match released e with
                  | Some r => remove_one r held
                  | None => held
                  end in
      held_after tr' held
  end.

(** A run is well ended when its last event is its only call on the
    promise and nothing is held open when that call is made. *)
Definition ends_cleanly (tr : list event) : Prop :=
  exists pre t,
    tr = pre ++ [t] /\ is_terminal t = true /\
    promise_calls pre = [] /\ held_after pre [] = [].

(** The [lpFile] argument of the (first) [ShellExecuteW] call. *)
Fixpoint browser_url (tr : list event) : option (list Z) :=
  match tr with
  | [] => None
  | ShellExecuteW _ lpFile :: _ => Some lpFile
  | _ :: tr' => browser_url tr'
  end.

(** A narrow string as UTF-16 code units, one per character; this is
    the wide form of a string of 7-bit characters. *)
Definition code_units (s : str) : list Z :=
  map (fun c => Z.of_nat (nat_of_ascii c)) s.

Definition ascii7 (c : ascii) : bool :=
  let n := nat_of_ascii c in
  ((1 <=? n) && (n <=? 127))%nat.

(** The answers of the environment that let [authenticate] reach
    [accept], and then [recv]. *)
Definition setup_ok (env : NetEnv) : bool :=
  (net_WSAStartup env =? 0)
  && negb (net_socket env =? INVALID_SOCKET)
  && negb (net_bind env =? SOCKET_ERROR)
  && negb (net_listen env =? SOCKET_ERROR).

Definition connected (env : NetEnv) : bool :=
  setup_ok env && negb (net_accept env =? INVALID_SOCKET).

(** The characters of [s] before its first NUL. *)
Fixpoint until_NUL (s : str) : str :=
  match s with
  | [] => []
  | c :: s' => if char_eqb c NUL then [] else c :: until_NUL s'
  end.

(** What the pattern is run on when the peer has sent [data]. *)
Definition request_seen (data : str) : str :=
  until_NUL (firstn 4095 data).

(** The value [authenticate] resolves with once a request is read. *)
Definition callback_value (callbackScheme request : str) : JSValue :=
  match regex_search request requestLineRegex with
  | Some path =>
      match find "?" path with
      | None => JSNull
      | Some qPos =>
          JSString (callbackScheme ++ lit "://callback" ++ substr path qPos)
      end
  | None => JSNull
  end.

(** The language of the pattern, written out: [GET], white space, a
    path that starts with a slash and has at least one more character
    and no white space, white space, [HTTP]. *)
Definition all_space (s : str) : Prop :=
  s <> [] /\ Forall (fun c => isspace c = true) s.

Definition no_space (s : str) : Prop :=
  s <> [] /\ Forall (fun c => isspace c = false) s.

Definition request_line (s path rest : str) : Prop :=
  exists ws1 p ws2,
    s = lit "GET" ++ ws1 ++ path ++ ws2 ++ lit "HTTP" ++ rest /\
    path = "/"%char :: p /\
    all_space ws1 /\ no_space p /\ all_space ws2.

(** The pattern occurs in [s] at some offset. *)
Definition occurs (s : str) : Prop :=
  exists before path rest tail,
    s = before ++ tail /\ request_line tail path rest.

(** The same run with another answer of [send]. *)
Definition with_send (env : NetEnv) (ret : Z) : NetEnv :=
  {| net_WSAStartup := net_WSAStartup env;
     net_socket := net_socket env;
     net_bind := net_bind env;
     net_sin_port := net_sin_port env;
     net_listen := net_listen env;
     net_accept := net_accept env;
     net_stack := net_stack env;
     net_recv := net_recv env;
     net_send := ret |}.

(** The events of [authenticate] up to the call of [accept]. *)
Definition listening_events (env : NetEnv) (url : str) : list event :=
  let port := ntohs (net_sin_port env) in
  let redirectUri :=
    lit "http://127.0.0.1:" ++ to_string port ++ lit "/callback" in
  let fullUrl :=
    match find "?" url with
    | Some _ => url ++ lit "&redirect_uri=" ++ redirectUri
    | None => url ++ lit "?redirect_uri=" ++ redirectUri
    end in
  [WSAStartup (net_WSAStartup env);
   socket (net_socket env);
   bind (net_socket env) INADDR_LOOPBACK 0 (net_bind env);
   getsockname (net_socket env);
   listen (net_socket env) 1 (net_listen env);
   ShellExecuteW (wstring_of (lit "open"))
     (wide_c_str (wstring_of fullUrl));
   setsockopt_SO_RCVTIMEO (net_socket env) 60000;
   accept (net_socket env) (net_accept env)].

(** A run in which every call succeeds, the listener got port 1234 and
    the browser sent [data]. *)
Definition demo_env (data : string) : NetEnv :=
  {| net_WSAStartup := 0; net_socket := 100; net_bind := 0;
     net_sin_port := 0xd204; net_listen := 0; net_accept := 104;
     net_stack := fun _ => "x"%char; net_recv := Some (lit data);
     net_send := 165 |}.

(** ** Notions used in the proofs *)

(** What one character of the base64 text contributes to the result. *)
Definition base64url_char (c : ascii) : str :=
  if char_eqb c "+" then ["-"%char]
  else if char_eqb c "/" then ["_"%char]
  else if char_eqb c "=" then []
  else [c].

(** A character other than '+', '/' and '='. *)
Definition url_safe (c : ascii) : bool :=
  negb (char_eqb c "+") && negb (char_eqb c "/") && negb (char_eqb c "=").

(** The checks made on each of the 64 digits of the alphabet. *)
Definition digit_ok (v : N) : bool :=
  match Base64.value (Base64.digit v) with
  | Some w => N.eqb v w
  | None => false
  end
  && negb (char_eqb (Base64.digit v) Base64.pad)
  && negb (char_eqb (Base64.digit v) "-")
  && negb (char_eqb (Base64.digit v) "_").

(** A digit survives the loop of [Base64UrlEncode] followed by
    [base64url_unswap]. *)
Definition digit_swap_ok (v : N) : bool :=
  match map base64url_unswap (base64url_char (Base64.digit v)) with
  | [x] => char_eqb x (Base64.digit v)
  | _ => false
  end.

(** The four provider calls of [sha256] that can fail. *)
Inductive hash_stage :=
| OpenProvider
| CreateHash
| HashData
| FinishHash.

(** The first of the four calls that fails, if any. *)
Definition failed_stage (env : CngEnv) : option hash_stage :=
  if negb (BCRYPT_SUCCESS (cng_open_status env)) then Some OpenProvider
  else if negb (BCRYPT_SUCCESS (cng_create_status env)) then Some CreateHash
  else if negb (BCRYPT_SUCCESS (cng_hash_status env)) then Some HashData
  else if negb (BCRYPT_SUCCESS (cng_finish_status env)) then Some FinishHash
  else None.

(** The message [sha256] rejects with at each stage. *)
Definition stage_message (st : hash_stage) : str :=
  match st with
  | OpenProvider => lit "Failed to open algorithm provider"
  | CreateHash => lit "Failed to create hash"
  | HashData => lit "Failed to hash data"
  | FinishHash => lit "Failed to finish hash"
  end.

(** A provider whose calls all succeed. *)
Definition cng_ok : CngEnv :=
  {| cng_open_status := 0; cng_hAlg := 1; cng_create_status := 0;
     cng_hHash := 2; cng_hash_status := 0; cng_finish_status := 0 |}.

(** The loop stops where the class stops: what follows is empty or
    starts with a character outside the class. *)
Definition stops_at (a : atom) (rest : str) : Prop :=
  match rest with
  | [] => True
  | c :: _ => atom_matches a c = false
  end.

(** The message of the setup step that failed, if one did. *)
Definition setup_failure (env : NetEnv) : option str :=
  if negb (net_WSAStartup env =? 0) then
    Some (lit "Failed to initialize Winsock")
  else if net_socket env =? INVALID_SOCKET then
    Some (lit "Failed to create socket")
  else if net_bind env =? SOCKET_ERROR then
    Some (lit "Failed to bind socket")
  else if net_listen env =? SOCKET_ERROR then
    Some (lit "Failed to listen on socket")
  else None.

(** The call [authenticate] makes on the promise, read off the answers
    of the environment. *)
Definition authenticate_result (env : NetEnv) (callbackScheme : str)
    : event :=
  match setup_failure env with
  | Some message => Reject (lit "SOCKET_ERROR") message
  | None =>
      if net_accept env =? INVALID_SOCKET then Resolve JSNull
      else
        match net_recv env with
        | None | Some [] => Resolve JSNull
        | Some data =>
            Resolve (callback_value callbackScheme (request_seen data))
        end
  end.

(** ** Notions used for the further properties *)

(** The 64 characters a base64url text is made of. *)
Definition base64url_alphabet : str :=
  lit "ABCDEFGHIJKLMNOPQRSTUVWXYZabcdefghijklmnopqrstuvwxyz0123456789-_".

(** A digit leaves the loop of [Base64UrlEncode] as one character of
    [base64url_alphabet]. *)
Definition digit_url_ok (v : N) : bool :=
  match base64url_char (Base64.digit v) with
  | [x] => existsb (char_eqb x) base64url_alphabet
  | _ => false
  end.

(** The handle or socket a call is made on. *)
Definition used (e : event) : option resource :=
  match e with
  | bind s _ _ _ | getsockname s | listen s _ _
  | setsockopt_SO_RCVTIMEO s _ | accept s _ | recv s _ _
  | send s _ _ _ | closesocket s => Some (Sock s)
  | BCryptCreateHash h _ _ | BCryptCloseAlgorithmProvider h =>
      Some (AlgHandle h)
  | BCryptHashData h _ _ | BCryptFinishHash h _ _ | BCryptDestroyHash h =>
      Some (HashHandle h)
  | _ => None
  end.

Definition holds (held : list resource) (r : resource) : bool :=
  existsb (resource_eqb r) held.

(** Every call of [tr] is made on something held at that moment:
    obtained earlier in the run and not released since. *)
Fixpoint uses_held (tr : list event) (held : list resource) : bool :=
  match tr with
  | [] => true
  | e :: tr' =>
      match used e with
      | Some r => holds held r
      | None => true
      end
      && (let held := match acquired e with
                      | Some r => r :: held
                      | None => held
                      end in
          let held := match released e with
                      | Some r => remove_one r held
                      | None => held
                      end in
          uses_held tr' held)
  end.

(** The number of events of [tr] that satisfy [p]. *)
Definition count (p : event -> bool) (tr : list event) : nat :=
  length (filter p tr).

Definition is_WSACleanup (e : event) : bool :=
  match e with WSACleanup => true | _ => false end.

Definition is_ShellExecuteW (e : event) : bool :=
  match e with ShellExecuteW _ _ => true | _ => false end.

Definition is_accept (e : event) : bool :=
  match e with accept _ _ => true | _ => false end.

Definition is_recv (e : event) : bool :=
  match e with recv _ _ _ => true | _ => false end.

Definition is_send (e : event) : bool :=
  match e with send _ _ _ _ => true | _ => false end.

(** [recv] returned a positive count. *)
Definition bytes_read (env : NetEnv) : bool :=
  match net_recv env with
  | Some (_ :: _) => true
  | _ => false
  end.

(** The events of [authenticate] after a successful [accept], without
    the buffer. *)
Definition after_accept (env : NetEnv) (callbackScheme : str)
    : list event :=
  let clientSock := net_accept env in
  let listenSock := net_socket env in
  match net_recv env with
  | None =>
      [recv clientSock 4095 SOCKET_ERROR;
       closesocket clientSock; closesocket listenSock; WSACleanup;
       Resolve JSNull]
  | Some [] =>
      [recv clientSock 4095 0;
       closesocket clientSock; closesocket listenSock; WSACleanup;
       Resolve JSNull]
  | Some data =>
      [recv clientSock 4095 (Z.of_nat (length (firstn 4095 data)));
       send clientSock response (strlen response) (net_send env);
       closesocket clientSock; closesocket listenSock; WSACleanup;
       Resolve (callback_value callbackScheme (request_seen data))]
  end.

(** The events of a run of [authenticate], path by path. *)
Definition authenticate_trace (env : NetEnv) (url callbackScheme : str)
    : list event :=
  let listenSock := net_socket env in
  if negb (net_WSAStartup env =? 0) then
    [WSAStartup (net_WSAStartup env);
     Reject (lit "SOCKET_ERROR") (lit "Failed to initialize Winsock")]
  else if listenSock =? INVALID_SOCKET then
    [WSAStartup (net_WSAStartup env); socket listenSock; WSACleanup;
     Reject (lit "SOCKET_ERROR") (lit "Failed to create socket")]
  else if net_bind env =? SOCKET_ERROR then
    [WSAStartup (net_WSAStartup env); socket listenSock;
     bind listenSock INADDR_LOOPBACK 0 (net_bind env);
     closesocket listenSock; WSACleanup;
     Reject (lit "SOCKET_ERROR") (lit "Failed to bind socket")]
  else if net_listen env =? SOCKET_ERROR then
    [WSAStartup (net_WSAStartup env); socket listenSock;
     bind listenSock INADDR_LOOPBACK 0 (net_bind env);
     getsockname listenSock;
     listen listenSock 1 (net_listen env);
     closesocket listenSock; WSACleanup;
     Reject (lit "SOCKET_ERROR") (lit "Failed to listen on socket")]
  else if net_accept env =? INVALID_SOCKET then
    listening_events env url
    ++ [closesocket listenSock; WSACleanup; Resolve JSNull]
  else
    listening_events env url ++ after_accept env callbackScheme.

(** The same run over another content of the stack. *)
Definition with_stack (env : NetEnv) (stack : nat -> ascii) : NetEnv :=
  {| net_WSAStartup := net_WSAStartup env;
     net_socket := net_socket env;
     net_bind := net_bind env;
     net_sin_port := net_sin_port env;
     net_listen := net_listen env;
     net_accept := net_accept env;
     net_stack := stack;
     net_recv := net_recv env;
     net_send := net_send env |}.

(** White space, then characters that are not white space, to the
    end. *)
Definition space_then_text (s : str) : Prop :=
  exists ws t,
    s = ws ++ t /\
    Forall (fun c => isspace c = true) ws /\
    Forall (fun c => isspace c = false) t.

(** The pattern from its group on, and from the end of its group on. *)
Definition from_group : regex :=
  [GroupBegin; One (Chr "/"); OneOrMore NonSpace; GroupEnd;
   OneOrMore Space;
   One (Chr "H"); One (Chr "T"); One (Chr "T"); One (Chr "P")].

Definition after_group : regex :=
  [GroupEnd; OneOrMore Space;
   One (Chr "H"); One (Chr "T"); One (Chr "T"); One (Chr "P")].

(** A run in which every call succeeds, the listener got port 1234 and
    the peer sent the characters [data]. *)
Definition receiving (data : str) : NetEnv :=
  {| net_WSAStartup := 0; net_socket := 100; net_bind := 0;
     net_sin_port := 0xd204; net_listen := 0; net_accept := 104;
     net_stack := fun _ => "x"%char; net_recv := Some data;
     net_send := 175 |}.

(** ** The run of [authenticate] with the start of parsing marked *)

(** A point of a run: a call, or the place where parsing starts, that
    is where [request] has been built from [buf] and the pattern is
    about to be searched in it. *)
Inductive point :=
| Call (e : event)
| Parse (request : str).

Definition calls_of (points : list point) : list event :=
  flat_map (fun p => match p with Call e => [e] | Parse _ => [] end) points.

(** The body of the detached thread of [authenticate] once more, each
    call in its place and the start of parsing between them. *)
Definition authenticate_points (env : NetEnv) (url callbackScheme : str)
    : list point :=
  Call (WSAStartup (net_WSAStartup env)) ::
  if negb (net_WSAStartup env =? 0) then
    [Call (Reject (lit "SOCKET_ERROR")
                  (lit "Failed to initialize Winsock"))]
  else
  let listenSock := net_socket env in
  Call (socket listenSock) ::
  if listenSock =? INVALID_SOCKET then
    [Call WSACleanup;
     Call (Reject (lit "SOCKET_ERROR") (lit "Failed to create socket"))]
  else
  Call (bind listenSock INADDR_LOOPBACK 0 (net_bind env)) ::
  if net_bind env =? SOCKET_ERROR then
    [Call (closesocket listenSock); Call WSACleanup;
     Call (Reject (lit "SOCKET_ERROR") (lit "Failed to bind socket"))]
  else
  Call (getsockname listenSock) ::
  let port := ntohs (net_sin_port env) in
  Call (listen listenSock 1 (net_listen env)) ::
  if net_listen env =? SOCKET_ERROR then
    [Call (closesocket listenSock); Call WSACleanup;
     Call (Reject (lit "SOCKET_ERROR") (lit "Failed to listen on socket"))]
  else
  let redirectUri :=
    lit "http://127.0.0.1:" ++ to_string port ++ lit "/callback" in
  let fullUrl := url in
  let fullUrl :=
    match find "?" fullUrl with
    | Some _ => fullUrl ++ lit "&redirect_uri=" ++ redirectUri
    | None => fullUrl ++ lit "?redirect_uri=" ++ redirectUri
    end in
  let wUrl := wstring_of fullUrl in
  Call (ShellExecuteW (wstring_of (lit "open")) (wide_c_str wUrl)) ::
  let timeout := 60000 in
  Call (setsockopt_SO_RCVTIMEO listenSock timeout) ::
  let clientSock := net_accept env in
  Call (accept listenSock clientSock) ::
  if clientSock =? INVALID_SOCKET then
    [Call (closesocket listenSock); Call WSACleanup;
     Call (Resolve JSNull)]
  else
  let buf := map (net_stack env) (seq 0 4096) in
  let len := Z.of_nat (length buf) - 1 in
  let '(bytesRead, buf) := recv_call env buf len in
  Call (recv clientSock len bytesRead) ::
  if bytesRead <=? 0 then
    [Call (closesocket clientSock); Call (closesocket listenSock);
     Call WSACleanup; Call (Resolve JSNull)]
  else
  match store buf bytesRead NUL with
  | None => [Call OutOfBounds]
  | Some buf =>
  Call (send clientSock response (strlen response) (net_send env)) ::
  Call (closesocket clientSock) ::
  Call (closesocket listenSock) ::
  Call WSACleanup ::
  match c_string buf with
  | None => [Call OutOfBounds]
  | Some request =>
  Parse request ::
  match regex_search request requestLineRegex with
  | Some path =>
      match find "?" path with
      | None => [Call (Resolve JSNull)]
      | Some qPos =>
          let callbackUrl :=
            callbackScheme ++ lit "://callback" ++ substr path qPos in
          [Call (Resolve (JSString callbackUrl))]
      end
  | None => [Call (Resolve JSNull)]
  end
  end
  end.

(** * Properties *)

Example encode_foobar :
  Base64UrlEncode [x66; x6f; x6f; x62; x61; x72] = lit "Zm9vYmFy".
Proof. reflexivity. Qed.

Example encode_fb_ff :
  Base64UrlEncode [xfb; xff] = lit "-_8".
Proof. reflexivity. Qed.

Example decode_fb_ff :
  Base64UrlDecode (lit "-_8") = Some [xfb; xff].
Proof. reflexivity. Qed.

Example sha256_empty :
  Base64UrlEncode (SHA256.digest []) =
  lit "47DEQpj8HBSa-_TImW-5JCeuQeRkm5NMpJWZG3hSuFU".
Proof. vm_compute. reflexivity. Qed.

Example sha256_abc :
  Base64UrlEncode (SHA256.digest (bytes_of_str (lit "abc"))) =
  lit "ungWv48Bz-pBQUDeXa4iI7ADYaOWF3qctBD_YfIAFa0".
Proof. vm_compute. reflexivity. Qed.

Example to_string_1234 : to_string 1234 = lit "1234".
Proof. reflexivity. Qed.

Example authenticate_scenario :
  promise_calls
    (authenticate (demo_env "GET /callback?code=abc123&state=xyz HTTP/1.1")
       (lit "https://idp.example/authorize") (lit "myapp"))
  = [Resolve (JSString (lit "myapp://callback?code=abc123&state=xyz"))].
Proof. vm_compute. reflexivity. Qed.

(** ** Lists three at a time *)

Lemma list_ind3 (A : Type) (P : list A -> Prop) :
  P [] -> (forall a, P [a]) -> (forall a b, P [a; b]) ->
  (forall a b c l, P l -> P (a :: b :: c :: l)) ->
  forall l, P l.
Proof.
  intros H0 H1 H2 H3.
  refine (fix IH (l : list A) : P l :=
            match l with
            | [] => H0
            | [a] => H1 a
            | [a; b] => H2 a b
            | a :: b :: c :: l' => H3 a b c l' (IH l')
            end).
Qed.

(** ** Base64 *)

Section Base64Facts.

Local Open Scope N_scope.

Lemma below_64_cases (P : N -> Prop) :
  Forall P (map N.of_nat (seq 0 64)) -> forall v, v < 64 -> P v.
Proof.
  intros H v Hv. rewrite Forall_forall in H. apply H.
  apply in_map_iff. exists (N.to_nat v). split; [lia|].
  apply in_seq. lia.
Qed.

Lemma digit_ok_all v : v < 64 -> digit_ok v = true.
Proof.
  revert v. apply below_64_cases.
  apply Forall_forall. apply forallb_forall. vm_compute. reflexivity.
Qed.

Lemma value_digit v : v < 64 -> Base64.value (Base64.digit v) = Some v.
Proof.
  intros Hv. pose proof (digit_ok_all Hv) as H. unfold digit_ok in H.
  repeat rewrite andb_true_iff in H. destruct H as [[[H _] _] _].
  destruct (Base64.value (Base64.digit v)); [|discriminate].
  apply N.eqb_eq in H. congruence.
Qed.

Lemma digit_not_pad v :
  v < 64 -> char_eqb (Base64.digit v) Base64.pad = false.
Proof.
  intros Hv. pose proof (digit_ok_all Hv) as H. unfold digit_ok in H.
  repeat rewrite andb_true_iff in H. destruct H as [[[_ H] _] _].
  now apply negb_true_iff in H.
Qed.

Lemma byte_of_to_N b : Base64.byte_of_N (Byte.to_N b) = b.
Proof.
  unfold Base64.byte_of_N.
  pose proof (Byte.to_N_bounded b).
  rewrite N.mod_small by lia. now rewrite Byte.of_to_N.
Qed.

End Base64Facts.

Lemma base64url_step_char result c :
  base64url_step result c = result ++ base64url_char c.
Proof.
  unfold base64url_step, base64url_char.
  destruct (char_eqb c "+"); [reflexivity|].
  destruct (char_eqb c "/"); [reflexivity|].
  destruct (char_eqb c "="); [now rewrite app_nil_r | reflexivity].
Qed.

Lemma base64url_loop base64 result :
  fold_left base64url_step base64 result
  = result ++ flat_map base64url_char base64.
Proof.
  revert result. induction base64 as [|c l IH]; intros result; simpl.
  - now rewrite app_nil_r.
  - rewrite IH, base64url_step_char, <- app_assoc. reflexivity.
Qed.

Lemma base64url_char_safe c :
  Forall (fun x => url_safe x = true) (base64url_char c).
Proof.
  unfold base64url_char.
  destruct (char_eqb c "+") eqn:E1; [repeat constructor|].
  destruct (char_eqb c "/") eqn:E2; [repeat constructor|].
  destruct (char_eqb c "=") eqn:E3; [constructor|].
  repeat constructor. unfold url_safe. now rewrite E1, E2, E3.
Qed.

Lemma Base64UrlEncode_loop data :
  exists base64,
    Base64UrlEncode data = flat_map base64url_char base64.
Proof.
  unfold Base64UrlEncode.
  repeat match goal with
         | |- context [let '(_, _) := ?call in _] => destruct call
         end.
  eexists. rewrite base64url_loop. reflexivity.
Qed.

Lemma Base64UrlEncode_safe data :
  Forall (fun c => url_safe c = true) (Base64UrlEncode data).
Proof.
  destruct (Base64UrlEncode_loop data) as [b ->].
  induction b as [|c b IH]; simpl; [constructor|].
  apply Forall_app. split; [apply base64url_char_safe | exact IH].
Qed.

Lemma encode_length_bound data :
  (3 * length (Base64.encode data) <= 4 * length data + 8)%nat.
Proof.
  induction data as [| a | a b | a b c l IH] using list_ind3;
    simpl Base64.encode; simpl length in *; lia.
Qed.

(** The two calls and the resize leave exactly the base64 text, as long
    as the counts fit. *)
Lemma Base64UrlEncode_text data :
  Z.of_nat (length data) <= 3221225469 ->
  Base64UrlEncode data = flat_map base64url_char (Base64.encode data).
Proof.
  intros Hlen. unfold Base64UrlEncode, to_DWORD.
  rewrite Z.mod_small by lia.
  unfold CryptBinaryToStringA.
  rewrite Nat2Z.id, firstn_all.
  pose proof (encode_length_bound data) as Hb.
  set (text := Base64.encode data) in *.
  assert (Hneed : (DWORD_MAX <? Z.of_nat (length text) + 1) = false).
  { apply Z.ltb_ge. unfold DWORD_MAX. lia. }
  cbv zeta.
  rewrite Hneed, Z.ltb_irrefl.
  rewrite base64url_loop. simpl app.
  f_equal. unfold resize.
  rewrite Nat2Z.id.
  rewrite firstn_app, firstn_all, Nat.sub_diag. simpl firstn.
  rewrite app_nil_r.
  replace (length text - _)%nat with 0%nat.
  - simpl. now rewrite app_nil_r.
  - rewrite length_app. simpl. lia.
Qed.

Ltac sextet_arith :=
  repeat match goal with
         | b : byte |- _ =>
             pose proof (Byte.to_N_bounded b); generalize dependent (Byte.to_N b);
             clear b; intros
         end;
  zify; Z.to_euclidean_division_equations; lia.

Lemma digit_swap v :
  (v < 64)%N ->
  map base64url_unswap (base64url_char (Base64.digit v)) = [Base64.digit v].
Proof.
  intros Hv.
  assert (H : digit_swap_ok v = true).
  { revert v Hv. apply below_64_cases.
    apply Forall_forall. apply forallb_forall. vm_compute. reflexivity. }
  unfold digit_swap_ok in H.
  destruct (map base64url_unswap _) as [|x [|y l]]; try discriminate.
  apply Ascii.eqb_eq in H. now subst.
Qed.

Lemma add_padding_group a b c d s :
  add_padding (a :: b :: c :: d :: s) = a :: b :: c :: d :: add_padding s.
Proof.
  unfold add_padding. simpl length.
  replace (S (S (S (S (length s)))) mod 4)%nat with (length s mod 4)%nat.
  - reflexivity.
  - change (S (S (S (S (length s))))) with (4 + length s)%nat.
    rewrite Nat.add_comm.
    rewrite <- (Nat.Div0.mod_add (length s) 1 4). f_equal.
Qed.

Lemma repad_encode data :
  add_padding
    (map base64url_unswap (flat_map base64url_char (Base64.encode data)))
  = Base64.encode data.
Proof.
  induction data as [| a | a b | a b c l IH] using list_ind3;
    simpl Base64.encode; cbv zeta.
  - reflexivity.
  - simpl flat_map. rewrite !map_app, !digit_swap by sextet_arith.
    reflexivity.
  - simpl flat_map. rewrite !map_app, !digit_swap by sextet_arith.
    reflexivity.
  - simpl flat_map. rewrite !map_app, !digit_swap by sextet_arith.
    simpl app. rewrite add_padding_group, IH. reflexivity.
Qed.

Lemma byte_of_sextets (b : byte) (n : N) :
  n = Byte.to_N b -> Base64.byte_of_N n = b.
Proof. intros ->. apply byte_of_to_N. Qed.

Lemma decode_encode data :
  Base64.decode (Base64.encode data) = Some data.
Proof.
  induction data as [| a | a b | a b c l IH] using list_ind3.
  - reflexivity.
  - simpl Base64.encode. cbv zeta. unfold Base64.decode.
    rewrite !value_digit by sextet_arith.
    change (char_eqb Base64.pad Base64.pad) with true. cbv iota zeta.
    f_equal. f_equal. apply byte_of_sextets. sextet_arith.
  - simpl Base64.encode. cbv zeta. unfold Base64.decode.
    rewrite !value_digit by sextet_arith.
    rewrite digit_not_pad by sextet_arith.
    change (char_eqb Base64.pad Base64.pad) with true. cbv iota zeta.
    f_equal. f_equal; [|f_equal]; apply byte_of_sextets; sextet_arith.
  - simpl Base64.encode. cbv zeta.
    change (Base64.decode (?c0 :: ?c1 :: ?c2 :: ?c3 :: ?rest))
      with (match Base64.value c0, Base64.value c1 with
            | Some v0, Some v1 =>
                let b0 := Base64.byte_of_N (v0 * 4 + v1 / 16) in
                if char_eqb c2 Base64.pad then
                  if char_eqb c3 Base64.pad then
                    match rest with [] => Some [b0] | _ => None end
                  else None
                else
                  match Base64.value c2 with
                  | Some v2 =>
                      let b1 :=
                        Base64.byte_of_N ((v1 mod 16) * 16 + v2 / 4) in
                      if char_eqb c3 Base64.pad then
                        match rest with [] => Some [b0; b1] | _ => None end
                      else
                        match Base64.value c3, Base64.decode rest with
                        | Some v3, Some tl =>
                            Some (b0 :: b1
                                  :: Base64.byte_of_N ((v2 mod 4) * 64 + v3)
                                  :: tl)
                        | _, _ => None
                        end
                  | None => None
                  end
            | _, _ => None
            end%N).
    rewrite !value_digit by sextet_arith.
    rewrite !digit_not_pad by sextet_arith.
    rewrite IH. cbv zeta.
    f_equal. f_equal; [|f_equal; [|f_equal]];
      apply byte_of_sextets; sextet_arith.
Qed.

(** Decoding what [Base64UrlEncode] returns gives the bytes back, as
    long as the counts handed to the platform fit 32 bits. *)
Lemma Base64Url_round_trip data :
  Z.of_nat (length data) <= 3221225469 ->
  Base64UrlDecode (Base64UrlEncode data) = Some data.
Proof.
  intros Hlen. unfold Base64UrlDecode.
  rewrite Base64UrlEncode_text by exact Hlen.
  rewrite repad_encode. apply decode_encode.
Qed.

Lemma url_safe_spec c :
  url_safe c = true -> c <> "+"%char /\ c <> "/"%char /\ c <> "="%char.
Proof.
  unfold url_safe. rewrite !andb_true_iff, !negb_true_iff.
  unfold char_eqb. rewrite !Ascii.eqb_neq. tauto.
Qed.

(** When the cast of the size leaves zero, nothing is encoded. *)
Lemma Base64UrlEncode_size_wraps data :
  to_DWORD (Z.of_nat (length data)) = 0 -> Base64UrlEncode data = [].
Proof.
  intros H. unfold Base64UrlEncode. rewrite H. reflexivity.
Qed.

Lemma encode_length_groups data :
  exists k,
    length (Base64.encode data) = (4 * k)%nat /\
    (length data <= 3 * k)%nat.
Proof.
  induction data as [| a | a b | a b c l IH] using list_ind3.
  - exists 0%nat. simpl. lia.
  - exists 1%nat. simpl. lia.
  - exists 1%nat. simpl. lia.
  - destruct IH as (k & Hk & Hle). exists (S k).
    simpl Base64.encode. simpl length. lia.
Qed.

(** When the base64 text and its terminator need more than a DWORD can
    count, both calls fail and nothing is returned. *)
Lemma Base64UrlEncode_text_too_long data :
  3221225469 < Z.of_nat (length data) < 4294967296 ->
  Base64UrlEncode data = [].
Proof.
  intros Hlen. unfold Base64UrlEncode, to_DWORD.
  rewrite Z.mod_small by lia.
  unfold CryptBinaryToStringA.
  rewrite Nat2Z.id, firstn_all.
  destruct (encode_length_groups data) as (k & Hk & Hle).
  assert (Hneed : (DWORD_MAX <? Z.of_nat (length (Base64.encode data)) + 1)
                  = true).
  { apply Z.ltb_lt. unfold DWORD_MAX. lia. }
  cbv zeta. rewrite Hneed. reflexivity.
Qed.

(** C6, as stated, fails.  A vector of 2^32 bytes has its size cast to
    the DWORD 0, so the text returned is empty and does not decode to the
    vector; and from 3221225470 bytes on the base64 text with its
    terminator is longer than the DWORD [base64Len] can count, so the
    text returned is not the encoding either. *)
Lemma four_gigabyte_vector_not_recovered :
  Base64UrlDecode (Base64UrlEncode (repeat x00 (N.to_nat 4294967296)))
  <> Some (repeat x00 (N.to_nat 4294967296))
  /\ Base64UrlDecode (Base64UrlEncode (repeat x00 (N.to_nat 3221225470)))
     <> Some (repeat x00 (N.to_nat 3221225470)).
Proof.
  assert (Hnil : forall n : N,
             (0 < n)%N ->
             Base64UrlDecode [] <> Some (repeat x00 (N.to_nat n))).
  { intros n Hn. change (Base64UrlDecode []) with (Some (@nil byte)).
    intros H.
    assert (Hl : length (@nil byte) = length (repeat x00 (N.to_nat n)))
      by congruence.
    rewrite repeat_length in Hl.
    change (length (@nil byte)) with 0%nat in Hl. lia. }
  split.
  - rewrite Base64UrlEncode_size_wraps.
    + apply Hnil. reflexivity.
    + rewrite repeat_length, N_nat_Z. reflexivity.
  - rewrite Base64UrlEncode_text_too_long.
    + apply Hnil. reflexivity.
    + rewrite repeat_length, N_nat_Z. split; reflexivity.
Qed.

(** C6 (amended): the text returned by [Base64UrlEncode] never holds '+',
    '/' or '='; for every byte sequence of at most 3221225469 bytes (so
    that its size and the size of its base64 text with the terminator fit
    the 32-bit counts of CryptBinaryToStringA), swapping '-' and '_' back,
    restoring the '=' padding and decoding as standard base64 gives the
    sequence back; the function is total and maps the empty sequence to
    the empty string. *)
Theorem Base64UrlEncode_round_trip (b : list byte) :
  Forall (fun c => c <> "+"%char /\ c <> "/"%char /\ c <> "="%char)
         (Base64UrlEncode b)
  /\ (Z.of_nat (length b) <= 3221225469 ->
      Base64UrlDecode (Base64UrlEncode b) = Some b)
  /\ Base64UrlEncode [] = [].
Proof.
  split; [|split].
  - eapply Forall_impl; [|apply Base64UrlEncode_safe].
    intros c. apply url_safe_spec.
  - apply Base64Url_round_trip.
  - reflexivity.
Qed.

Lemma Base64UrlEncode_round_trip_witness :
  Base64UrlDecode (Base64UrlEncode [x66; x6f; x6f; x62]) =
  Some [x66; x6f; x6f; x62].
Proof.
  apply (proj1 (proj2 (Base64UrlEncode_round_trip [x66; x6f; x6f; x62]))).
  simpl. lia.
Defined.

(** ** generateCodeVerifier *)

(** C7: [generateCodeVerifier] asks the generator for exactly 32 bytes;
    when the generator reports success the promise is resolved, once,
    with the base64url text of those bytes, which decodes to those 32
    bytes; when it reports failure the promise is rejected, once, with
    RANDOM_ERROR, and never resolved. *)
Theorem generateCodeVerifier_spec (env : RngEnv) :
  let drawn := map (rng_octet env) (seq 0 32) in
  let tr := generateCodeVerifier env in
  (exists status, hd_error tr = Some (BCryptGenRandom 32 status))
  /\ (BCRYPT_SUCCESS (rng_status env) = true ->
      promise_calls tr = [Resolve (JSString (Base64UrlEncode drawn))]
      /\ Base64UrlDecode (Base64UrlEncode drawn) = Some drawn
      /\ length drawn = 32%nat)
  /\ (BCRYPT_SUCCESS (rng_status env) = false ->
      promise_calls tr =
        [Reject (lit "RANDOM_ERROR") (lit "Failed to generate random bytes")]
      /\ forall v, ~ In (Resolve v) tr).
Proof.
  cbv zeta. unfold generateCodeVerifier, BCryptGenRandom_call.
  change (to_DWORD (Z.of_nat (length (repeat x00 32)))) with 32.
  destruct (BCRYPT_SUCCESS (rng_status env)) eqn:Hs; cbv iota beta.
  - rewrite Hs. split; [eexists; reflexivity|]. split; [|discriminate].
    intros _. change (skipn (Z.to_nat 32) (repeat x00 32)) with (@nil byte).
    rewrite app_nil_r. change (Z.to_nat 32) with 32%nat.
    split; [reflexivity|]. split.
    + apply Base64Url_round_trip. rewrite length_map, length_seq. lia.
    + now rewrite length_map, length_seq.
  - rewrite Hs. split; [eexists; reflexivity|]. split; [discriminate|].
    intros _. split; [reflexivity|].
    intros v [H|[H|[]]]; discriminate.
Qed.

Lemma generateCodeVerifier_spec_witness :
  promise_calls
    (generateCodeVerifier {| rng_status := 0; rng_octet := fun _ => x2a |})
  = [Resolve (JSString (lit "KioqKioqKioqKioqKioqKioqKioqKioqKioqKioqKio"))].
Proof.
  apply (proj1 (proj2 (generateCodeVerifier_spec
                         {| rng_status := 0; rng_octet := fun _ => x2a |}))).
  reflexivity.
Defined.

(** ** sha256 *)

Lemma digest_length message : length (SHA256.digest message) = 32%nat.
Proof.
  unfold SHA256.digest, SHA256.output, SHA256.be_bytes.
  rewrite length_map, !length_app, !length_map. reflexivity.
Qed.

Lemma resource_eqb_refl r : resource_eqb r r = true.
Proof. destruct r; simpl; apply Z.eqb_refl. Qed.

Lemma stage_message_injective st st' :
  stage_message st = stage_message st' -> st = st'.
Proof. destruct st, st'; simpl; intros H; try reflexivity; discriminate. Qed.

Lemma failed_stage_none env :
  failed_stage env = None <->
  BCRYPT_SUCCESS (cng_open_status env) = true /\
  BCRYPT_SUCCESS (cng_create_status env) = true /\
  BCRYPT_SUCCESS (cng_hash_status env) = true /\
  BCRYPT_SUCCESS (cng_finish_status env) = true.
Proof.
  unfold failed_stage.
  destruct (BCRYPT_SUCCESS (cng_open_status env)),
           (BCRYPT_SUCCESS (cng_create_status env)),
           (BCRYPT_SUCCESS (cng_hash_status env)),
           (BCRYPT_SUCCESS (cng_finish_status env)); simpl;
    split; intros H; try discriminate; try tauto;
    destruct H as (? & ? & ? & ?); discriminate.
Qed.

(** Split a run at its last event and reduce [ends_cleanly] to the
    resources left, rewriting with the facts at hand. *)
Ltac held_step :=
  cbn [held_after acquired released remove_one resource_eqb negb];
  repeat match goal with
         | H : ?b = _ |- context [?b] => rewrite H
         end;
  rewrite ?Z.eqb_refl.

Ltac clean_end :=
  match goal with
  | |- ends_cleanly (?e1 :: ?tr) =>
      let n := eval cbn [length Nat.pred] in (Nat.pred (length (e1 :: tr))) in
      exists (firstn n (e1 :: tr)), (last tr e1);
      cbn [firstn last app];
      split; [reflexivity|split; [reflexivity|split; [reflexivity|]]];
      repeat (progress held_step); try reflexivity
  end.

Lemma firstn_digest message :
  firstn 32 (SHA256.digest message) = SHA256.digest message.
Proof.
  rewrite <- (digest_length message) at 1. apply firstn_all.
Qed.

(** What [sha256] does when the cast of the size leaves zero: the hash
    object is fed nothing. *)
Lemma sha256_size_wraps env input :
  to_DWORD (Z.of_nat (length input)) = 0 ->
  failed_stage env = None ->
  sha256 env input
  = [BCryptOpenAlgorithmProvider (cng_open_status env) (cng_hAlg env);
     BCryptCreateHash (cng_hAlg env) (cng_create_status env) (cng_hHash env);
     BCryptHashData (cng_hHash env) [] (cng_hash_status env);
     BCryptFinishHash (cng_hHash env) 32 (cng_finish_status env);
     BCryptDestroyHash (cng_hHash env);
     BCryptCloseAlgorithmProvider (cng_hAlg env);
     Resolve (JSString (Base64UrlEncode (SHA256.digest [])))].
Proof.
  intros Hsize. unfold sha256, failed_stage, BCryptFinishHash_call.
  rewrite Hsize.
  destruct (BCRYPT_SUCCESS (cng_open_status env)); [|discriminate].
  destruct (BCRYPT_SUCCESS (cng_create_status env)); [|discriminate].
  destruct (BCRYPT_SUCCESS (cng_hash_status env)); [|discriminate].
  destruct (BCRYPT_SUCCESS (cng_finish_status env)) eqn:Hf;
    cbn [negb]; rewrite ?Hf; [|discriminate].
  intros _. cbn [negb].
  change (firstn (Z.to_nat 0) (bytes_of_str input)) with (@nil byte).
  change (to_DWORD (Z.of_nat (length (repeat x00 32)))) with 32.
  change (Z.to_nat 32) with 32%nat.
  rewrite firstn_digest.
  change (skipn 32 (repeat x00 32)) with (@nil byte).
  now rewrite app_nil_r.
Qed.

(** C8, as stated, fails: the size of the input is handed to
    BCryptHashData as a ULONG, so for an input of 2^32 characters the
    hash object is fed no byte at all, not the input, and the promise is
    resolved with the text of the digest of the empty message. *)
Lemma four_gigabyte_input_not_hashed :
  let input := repeat "a"%char (N.to_nat 4294967296) in
  let tr := sha256 cng_ok input in
  In (BCryptHashData 2 [] 0) tr
  /\ (forall fed status,
      In (BCryptHashData 2 fed status) tr -> fed <> bytes_of_str input)
  /\ promise_calls tr
     = [Resolve (JSString
                   (lit "47DEQpj8HBSa-_TImW-5JCeuQeRkm5NMpJWZG3hSuFU"))].
Proof.
  cbv zeta.
  assert (Hsize : to_DWORD (Z.of_nat (length
                     (repeat "a"%char (N.to_nat 4294967296)))) = 0).
  { rewrite repeat_length, N_nat_Z. reflexivity. }
  rewrite (@sha256_size_wraps cng_ok _ Hsize eq_refl).
  split; [|split].
  - cbn [In cng_ok cng_hHash cng_hash_status]. do 2 right. left. reflexivity.
  - intros fed status Hin Heq.
    assert (Hfed : fed = []).
    { cbn [In] in Hin.
      destruct Hin as [H|[H|[H|[H|[H|[H|[H|[]]]]]]]];
        try discriminate H.
      congruence. }
    rewrite Hfed in Heq.
    assert (Hne : forall n : N,
               (0 < n)%N ->
               @nil byte <> bytes_of_str (repeat "a"%char (N.to_nat n))).
    { intros n Hn H.
      assert (Hl : length (@nil byte)
                   = length (bytes_of_str (repeat "a"%char (N.to_nat n))))
        by congruence.
      unfold bytes_of_str in Hl. rewrite length_map, repeat_length in Hl.
      change (length (@nil byte)) with 0%nat in Hl. lia. }
    exact (Hne 4294967296%N eq_refl Heq).
  - unfold promise_calls. cbn [filter is_terminal].
    now rewrite sha256_empty.
Qed.

(** C8 (amended): for every input shorter than 2^32 bytes (its size is
    handed over as a ULONG), [sha256] resolves the promise, once, with
    the base64url text of the 32-byte SHA-256 digest of the input when
    all four provider calls succeed; for every input it rejects, once,
    exactly when one of the four calls fails, with HASH_ERROR and the
    message of the first stage that failed, the four messages being
    pairwise different; and on every path the provider and hash handles
    obtained so far have been released when the promise is called. *)
Theorem sha256_spec (env : CngEnv) (input : str) :
  let tr := sha256 env input in
  (Z.of_nat (length input) < 4294967296 ->
   failed_stage env = None ->
   promise_calls tr =
     [Resolve (JSString
                 (Base64UrlEncode (SHA256.digest (bytes_of_str input))))])
  /\ length (SHA256.digest (bytes_of_str input)) = 32%nat
  /\ (failed_stage env = None -> exists text, promise_calls tr = [Resolve text])
  /\ (forall st,
      failed_stage env = Some st ->
      promise_calls tr = [Reject (lit "HASH_ERROR") (stage_message st)])
  /\ (forall st st', stage_message st = stage_message st' -> st = st')
  /\ (failed_stage env = None <->
      BCRYPT_SUCCESS (cng_open_status env) = true /\
      BCRYPT_SUCCESS (cng_create_status env) = true /\
      BCRYPT_SUCCESS (cng_hash_status env) = true /\
      BCRYPT_SUCCESS (cng_finish_status env) = true)
  /\ ends_cleanly tr.
Proof.
  cbv zeta.
  split; [|split; [apply digest_length|
           split; [|split; [|
           split; [apply stage_message_injective|
           split; [apply failed_stage_none|]]]]]].
  - intros Hlen. unfold sha256, failed_stage, BCryptFinishHash_call.
    destruct (BCRYPT_SUCCESS (cng_open_status env)); [|discriminate].
    destruct (BCRYPT_SUCCESS (cng_create_status env)); [|discriminate].
    destruct (BCRYPT_SUCCESS (cng_hash_status env)); [|discriminate].
    destruct (BCRYPT_SUCCESS (cng_finish_status env)) eqn:Hf;
      cbn [negb]; rewrite ?Hf; [|discriminate].
    intros _. cbn [negb promise_calls filter is_terminal].
    unfold to_DWORD. rewrite (Z.mod_small (Z.of_nat (length input))) by lia.
    rewrite Nat2Z.id.
    replace (firstn (length input) (bytes_of_str input))
      with (bytes_of_str input)
      by (rewrite <- (length_map byte_of_ascii input); symmetry;
          apply firstn_all).
    change (Z.to_nat (Z.of_nat (length (repeat x00 32)) mod 4294967296))
      with 32%nat.
    rewrite <- (digest_length (bytes_of_str input)) at 1.
    rewrite firstn_all.
    change (skipn 32 (repeat x00 32)) with (@nil byte).
    now rewrite app_nil_r.
  - unfold sha256, failed_stage, BCryptFinishHash_call.
    destruct (BCRYPT_SUCCESS (cng_open_status env)); [|discriminate].
    destruct (BCRYPT_SUCCESS (cng_create_status env)); [|discriminate].
    destruct (BCRYPT_SUCCESS (cng_hash_status env)); [|discriminate].
    destruct (BCRYPT_SUCCESS (cng_finish_status env)) eqn:Hf;
      cbn [negb]; rewrite ?Hf; [|discriminate].
    intros _. eexists. reflexivity.
  - intros st. unfold sha256, failed_stage, BCryptFinishHash_call.
    destruct (BCRYPT_SUCCESS (cng_open_status env)); cbn [negb];
      [|intros [= <-]; reflexivity].
    destruct (BCRYPT_SUCCESS (cng_create_status env)); cbn [negb];
      [|intros [= <-]; reflexivity].
    destruct (BCRYPT_SUCCESS (cng_hash_status env)); cbn [negb];
      [|intros [= <-]; reflexivity].
    destruct (BCRYPT_SUCCESS (cng_finish_status env)) eqn:Hf;
      cbn [negb]; rewrite ?Hf; [discriminate|].
    intros [= <-]. reflexivity.
  - unfold sha256, BCryptFinishHash_call.
    destruct (BCRYPT_SUCCESS (cng_open_status env)) eqn:Ho; cbn [negb];
      [|clean_end].
    destruct (BCRYPT_SUCCESS (cng_create_status env)) eqn:Hc; cbn [negb];
      [|clean_end].
    destruct (BCRYPT_SUCCESS (cng_hash_status env)) eqn:Hh; cbn [negb];
      [|clean_end].
    destruct (BCRYPT_SUCCESS (cng_finish_status env)) eqn:Hf;
      cbv beta iota; rewrite ?Hf; cbn [negb]; cbv iota; clean_end.
Qed.

Lemma sha256_spec_witness :
  promise_calls (sha256 cng_ok (lit "abc")) =
  [Resolve (JSString (lit "ungWv48Bz-pBQUDeXa4iI7ADYaOWF3qctBD_YfIAFa0"))].
Proof.
  assert (H : Z.of_nat (length (lit "abc")) < 4294967296) by (simpl; lia).
  generalize (proj1 (sha256_spec cng_ok (lit "abc")) H eq_refl).
  vm_compute. intros X. exact X.
Defined.

(** ** The request-line pattern *)

Section RepeatAtom.

Variable R : Type.
Variable a : atom.
Variable k : str -> nat -> option R.

Lemma repeat_atom_sound s pos r :
  repeat_atom a k s pos = Some r ->
  exists ws rest,
    s = ws ++ rest /\ ws <> [] /\
    Forall (fun c => atom_matches a c = true) ws /\
    k rest (pos + length ws)%nat = Some r.
Proof.
  revert pos. induction s as [|c s IH]; intros pos H; simpl in H.
  - discriminate.
  - destruct (atom_matches a c) eqn:Hc; [|discriminate].
    destruct (repeat_atom a k s (S pos)) as [r'|] eqn:Hloop.
    + injection H as ->.
      destruct (IH _ Hloop) as (ws & rest & -> & _ & Hall & Hk).
      exists (c :: ws), rest. repeat split.
      * discriminate.
      * now constructor.
      * simpl. now rewrite Nat.add_succ_r.
    + exists [c], s. repeat split.
      * discriminate.
      * now repeat constructor.
      * simpl. now rewrite Nat.add_1_r.
Qed.

Lemma repeat_atom_stopped rest pos :
  stops_at a rest -> repeat_atom a k rest pos = None.
Proof.
  destruct rest as [|c rest]; simpl; [reflexivity|].
  intros ->. reflexivity.
Qed.

Lemma repeat_atom_complete ws rest pos r :
  ws <> [] ->
  Forall (fun c => atom_matches a c = true) ws ->
  stops_at a rest ->
  k rest (pos + length ws)%nat = Some r ->
  repeat_atom a k (ws ++ rest) pos = Some r.
Proof.
  intros Hne Hall Hstop. revert pos Hne.
  induction Hall as [|c ws Hc Hall IH]; intros pos Hne Hk; [congruence|].
  simpl. rewrite Hc.
  destruct ws as [|c' ws].
  - simpl. rewrite repeat_atom_stopped by exact Hstop.
    simpl in Hk. now rewrite Nat.add_1_r in Hk.
  - rewrite IH; [reflexivity|discriminate|].
    simpl in *. now rewrite Nat.add_succ_r in Hk.
Qed.

End RepeatAtom.

(** One literal character of the pattern, in a hypothesis that says the
    rest of the match succeeded. *)
Ltac one_char H :=
  match type of H with
  | match ?s with [] => None | _ :: _ => _ end = Some _ =>
      let c := fresh "c" in
      let s' := fresh "s" in
      let E := fresh "E" in
      destruct s as [|c s']; [discriminate H|];
      unfold atom_matches at 1, char_eqb in H;
      destruct (Ascii.eqb c _) eqn:E in H; [|discriminate H];
      apply Ascii.eqb_eq in E; subst c
  end.

Lemma isspace_slash : isspace "/" = false.
Proof. reflexivity. Qed.

Lemma isspace_H : isspace "H" = false.
Proof. reflexivity. Qed.

Lemma Forall_negb_space p :
  Forall (fun c => atom_matches NonSpace c = true) p <->
  Forall (fun c => isspace c = false) p.
Proof.
  split; apply Forall_impl; intros c; simpl; apply negb_true_iff.
Qed.

(** Every match of the pattern is a request line, and the span of the
    group is the span of the path. *)
Lemma match_here_sound s pos cap b e :
  match_here requestLineRegex s pos cap = Some (b, e) ->
  exists ws1 path tail rest,
    s = lit "GET" ++ ws1 ++ path ++ tail /\
    request_line s path rest /\
    b = (pos + 3 + length ws1)%nat /\ e = (b + length path)%nat.
Proof.
  unfold requestLineRegex. intros H.
  cbn [match_here fst snd] in H.
  one_char H. one_char H. one_char H.
  apply repeat_atom_sound in H as (ws1 & r1 & -> & Hne1 & Hall1 & H).
  one_char H.
  apply repeat_atom_sound in H as (p & r2 & -> & Hne2 & Hall2 & H).
  apply repeat_atom_sound in H as (ws2 & r3 & -> & Hne3 & Hall3 & H).
  one_char H. one_char H. one_char H. one_char H.
  injection H as <- <-.
  apply Forall_negb_space in Hall2.
  match goal with
  | |- context ["P"%char :: ?tl] =>
      exists ws1, ("/"%char :: p), (ws2 ++ lit "HTTP" ++ tl), tl
  end.
  split; [reflexivity|]. split; [|split].
  - exists ws1, p, ws2. repeat split; auto.
  - lia.
  - simpl length. lia.
Qed.

Lemma all_space_stop (ws rest : str) :
  all_space ws -> stops_at NonSpace (ws ++ rest).
Proof.
  intros [Hne Hall]. destruct ws as [|c ws]; [congruence|].
  simpl. inversion Hall; subst. now apply negb_false_iff.
Qed.

(** Every request line is matched, with the path as group 1. *)
Lemma match_here_complete s path rest pos cap :
  request_line s path rest ->
  exists ws1 tail,
    s = lit "GET" ++ ws1 ++ path ++ tail /\
    match_here requestLineRegex s pos cap
    = Some ((pos + 3 + length ws1)%nat,
            (pos + 3 + length ws1 + length path)%nat).
Proof.
  intros (ws1 & p & ws2 & -> & -> & Hws1 & Hp & Hws2).
  exists ws1, (ws2 ++ lit "HTTP" ++ rest). split.
  - reflexivity.
  - destruct Hws1 as [Hne1 Hall1], Hp as [Hne2 Hall2].
    pose proof (all_space_stop (lit "HTTP" ++ rest) Hws2) as Hstop2.
    destruct Hws2 as [Hne3 Hall3].
    unfold requestLineRegex.
    cbn [lit list_ascii_of_string app match_here atom_matches].
    unfold char_eqb. rewrite !Ascii.eqb_refl.
    apply repeat_atom_complete; auto.
    { simpl. unfold stops_at. simpl. exact isspace_slash. }
    cbn [match_here atom_matches snd]. unfold char_eqb.
    rewrite Ascii.eqb_refl.
    apply repeat_atom_complete; auto.
    { now apply Forall_negb_space. }
    cbn [match_here fst].
    apply repeat_atom_complete; auto.
    { simpl. exact isspace_H. }
    cbn [match_here atom_matches]. unfold char_eqb.
    rewrite !Ascii.eqb_refl. f_equal. f_equal; simpl length; lia.
Qed.

Lemma search_from_first re s pos r :
  match_here re s pos (0, 0)%nat = Some r -> search_from re s pos = Some r.
Proof. intros H. destruct s; simpl; now rewrite H. Qed.

Lemma search_from_sound re s pos r :
  search_from re s pos = Some r ->
  exists before tail,
    s = before ++ tail /\
    match_here re tail (pos + length before)%nat (0, 0)%nat = Some r.
Proof.
  revert pos. induction s as [|c s IH]; intros pos H; simpl in H.
  - destruct (match_here re [] pos (0, 0)%nat) eqn:E; [|discriminate].
    exists [], []. simpl. rewrite Nat.add_0_r. split; congruence.
  - destruct (match_here re (c :: s) pos (0, 0)%nat) eqn:E.
    + exists [], (c :: s). simpl. rewrite Nat.add_0_r. split; congruence.
    + destruct (IH _ H) as (before & tail & -> & Hm).
      exists (c :: before), tail. simpl. rewrite Nat.add_succ_r.
      split; [reflexivity | exact Hm].
Qed.

Lemma search_from_complete re before tail pos r :
  match_here re tail (pos + length before)%nat (0, 0)%nat = Some r ->
  exists r', search_from re (before ++ tail) pos = Some r'.
Proof.
  revert pos. induction before as [|c before IH]; intros pos H.
  - simpl in *. rewrite Nat.add_0_r in H.
    exists r. now apply search_from_first.
  - simpl app. simpl search_from.
    destruct (match_here re (c :: before ++ tail) pos (0, 0)%nat);
      [eauto|].
    apply IH. simpl in H. now rewrite Nat.add_succ_r in H.
Qed.

Lemma skipn_length_app (A : Type) (l1 l2 : list A) :
  skipn (length l1) (l1 ++ l2) = l2.
Proof.
  rewrite skipn_app, skipn_all, Nat.sub_diag. reflexivity.
Qed.

Lemma firstn_length_app (A : Type) (l1 l2 : list A) :
  firstn (length l1) (l1 ++ l2) = l1.
Proof.
  rewrite firstn_app, firstn_all, Nat.sub_diag. simpl. apply app_nil_r.
Qed.

(** The group of a match found in [before ++ s], read back from the
    subject. *)
Lemma capture_is_path (before ws1 path tail : str) :
  let subject := before ++ lit "GET" ++ ws1 ++ path ++ tail in
  let b := (0 + length before + 3 + length ws1)%nat in
  firstn (b + length path - b) (skipn b subject) = path.
Proof.
  cbv zeta.
  replace (0 + length before + 3 + length ws1)%nat
    with (length (before ++ lit "GET" ++ ws1))
    by (rewrite !length_app; simpl; lia).
  rewrite Nat.add_comm, Nat.add_sub.
  replace (before ++ lit "GET" ++ ws1 ++ path ++ tail)
    with ((before ++ lit "GET" ++ ws1) ++ path ++ tail)
    by (now rewrite <- !app_assoc).
  rewrite skipn_length_app. apply firstn_length_app.
Qed.

(** What [regex_search] returns is the path of a request line that
    occurs in the subject. *)
Lemma regex_search_sound s path :
  regex_search s requestLineRegex = Some path ->
  exists before tail rest,
    s = before ++ tail /\ request_line tail path rest.
Proof.
  unfold regex_search.
  destruct (search_from requestLineRegex s 0) as [[b e]|] eqn:Hs;
    [|discriminate].
  intros H. injection H as <-.
  apply search_from_sound in Hs as (before & tl & -> & Hm).
  apply match_here_sound in Hm
    as (ws1 & path & tail & rest & -> & Hline & -> & ->).
  exists before, (lit "GET" ++ ws1 ++ path ++ tail), rest.
  split; [reflexivity|].
  rewrite (capture_is_path before ws1 path tail). exact Hline.
Qed.

(** A request line at the very start is the match. *)
Lemma regex_search_anchored s path rest :
  request_line s path rest ->
  regex_search s requestLineRegex = Some path.
Proof.
  intros Hline.
  destruct (match_here_complete 0 (0, 0)%nat Hline)
    as (ws1 & tail & -> & Hm).
  unfold regex_search. rewrite (search_from_first _ _ _ Hm).
  f_equal.
  pose proof (capture_is_path [] ws1 path tail) as Hc.
  cbv zeta in Hc. simpl length in Hc. simpl app in Hc.
  replace (0 + 3 + length ws1 + length path - (0 + 3 + length ws1))%nat
    with (0 + 0 + 3 + length ws1 + length path
          - (0 + 0 + 3 + length ws1))%nat by lia.
  exact Hc.
Qed.

(** A request line anywhere in the subject makes the search succeed. *)
Lemma regex_search_complete s :
  occurs s -> regex_search s requestLineRegex <> None.
Proof.
  intros (before & path & rest & tail & -> & Hline).
  destruct (match_here_complete (0 + length before) (0, 0)%nat Hline)
    as (ws1 & tl & _ & Hm).
  destruct (search_from_complete _ before _ _ Hm) as [[b e] Hs].
  unfold regex_search. rewrite Hs. discriminate.
Qed.

(** ** The buffer of [authenticate] *)

Lemma c_string_app (s rest : list ascii) :
  c_string (s ++ NUL :: rest) = Some (until_NUL s).
Proof.
  induction s as [|c s IH]; simpl.
  - reflexivity.
  - destruct (char_eqb c NUL); [reflexivity|]. now rewrite IH.
Qed.

(** One [recv] into the 4096-byte buffer, the terminator stored behind
    what was read, and the buffer read back as a C string: the store is
    inside the array, the read stops inside it, and the string is what
    precedes the first NUL among the first 4095 bytes sent. *)
Lemma read_request env (buf : list ascii) (data : str) :
  length buf = 4096%nat ->
  net_recv env = Some data ->
  exists buf1 buf2,
    recv_call env buf 4095
    = (Z.of_nat (length (firstn 4095 data)), buf1) /\
    (data <> [] -> 0 < Z.of_nat (length (firstn 4095 data)) <= 4095) /\
    store buf1 (Z.of_nat (length (firstn 4095 data))) NUL = Some buf2 /\
    c_string buf2 = Some (request_seen data).
Proof.
  intros Hbuf Hrecv. unfold recv_call. rewrite Hrecv.
  change (Z.to_nat 4095) with 4095%nat.
  set (got := firstn 4095 data).
  assert (Hgot : (length got <= 4095)%nat) by apply firstn_le_length.
  eexists. eexists. split; [reflexivity|]. split; [|split].
  - intros Hne. split; [|lia].
    destruct data as [|c data]; [congruence|].
    subst got. simpl. lia.
  - unfold store. rewrite length_app, length_skipn, Hbuf.
    replace ((0 <=? Z.of_nat (length got))
             && (Z.of_nat (length got)
                 <? Z.of_nat (length got + (4096 - length got))))
      with true
      by (symmetry; apply andb_true_iff; split;
          [apply Z.leb_le | apply Z.ltb_lt]; lia).
    reflexivity.
  - rewrite Nat2Z.id, firstn_length_app.
    apply c_string_app.
Qed.

Lemma setup_ok_true env :
  setup_ok env = true ->
  (net_WSAStartup env =? 0) = true /\
  (net_socket env =? INVALID_SOCKET) = false /\
  (net_bind env =? SOCKET_ERROR) = false /\
  (net_listen env =? SOCKET_ERROR) = false.
Proof.
  unfold setup_ok. rewrite !andb_true_iff, !negb_true_iff. tauto.
Qed.

Lemma connected_true env :
  connected env = true ->
  setup_ok env = true /\ (net_accept env =? INVALID_SOCKET) = false.
Proof.
  unfold connected. rewrite andb_true_iff, negb_true_iff. tauto.
Qed.

Lemma stack_buffer_length env :
  length (map (net_stack env) (seq 0 4096)) = 4096%nat.
Proof. now rewrite length_map, length_seq. Qed.

(** The tail of [authenticate] resolves with [callback_value]. *)
Lemma resolve_callback callbackScheme request :
  match regex_search request requestLineRegex with
  | Some path =>
      match find "?" path with
      | None => [Resolve JSNull]
      | Some qPos =>
          [Resolve (JSString (callbackScheme ++ lit "://callback"
                              ++ substr path qPos))]
      end
  | None => [Resolve JSNull]
  end = [Resolve (callback_value callbackScheme request)].
Proof.
  unfold callback_value.
  destruct (regex_search request requestLineRegex) as [path|];
    [|reflexivity].
  destruct (find "?" path); reflexivity.
Qed.

(** Up to [accept], a run that got its listener is [listening_events]. *)
Lemma authenticate_listening env url callbackScheme :
  setup_ok env = true ->
  exists rest,
    authenticate env url callbackScheme = listening_events env url ++ rest.
Proof.
  intros Hs. apply setup_ok_true in Hs as (H1 & H2 & H3 & H4).
  unfold authenticate, listening_events.
  rewrite H1, H2, H3, H4. cbn [negb app].
  eexists. do 8 f_equal.
Qed.

(** The whole run when a connection was accepted and [data] had
    arrived. *)
Lemma authenticate_received env url callbackScheme data :
  connected env = true ->
  net_recv env = Some data ->
  data <> [] ->
  authenticate env url callbackScheme
  = listening_events env url
    ++ [recv (net_accept env) 4095 (Z.of_nat (length (firstn 4095 data)));
        send (net_accept env) response (strlen response) (net_send env);
        closesocket (net_accept env);
        closesocket (net_socket env);
        WSACleanup;
        Resolve (callback_value callbackScheme (request_seen data))].
Proof.
  intros Hc Hrecv Hne.
  apply connected_true in Hc as [Hs Ha].
  apply setup_ok_true in Hs as (H1 & H2 & H3 & H4).
  unfold authenticate, listening_events.
  rewrite H1, H2, H3, H4, Ha. cbn [negb app].
  do 8 f_equal.
  rewrite stack_buffer_length.
  change (Z.of_nat 4096 - 1) with 4095.
  destruct (@read_request env _ data (stack_buffer_length env) Hrecv)
    as (buf1 & buf2 & Hcall & Hread & Hstore & Hstr).
  rewrite Hcall. cbv beta iota.
  destruct (Hread Hne) as [Hpos _].
  replace (Z.of_nat (length (firstn 4095 data)) <=? 0) with false
    by (symmetry; apply Z.leb_gt; lia).
  rewrite Hstore, Hstr.
  do 5 f_equal. apply resolve_callback.
Qed.

(** ** Every run of [authenticate] *)

Ltac no_such_event :=
  let Hin := fresh "Hin" in
  intros Hin; cbn [In app] in Hin;
  repeat (destruct Hin as [Hin|Hin]; [discriminate Hin|]);
  exact Hin.

Lemma authenticate_summary env url callbackScheme :
  let tr := authenticate env url callbackScheme in
  promise_calls tr = [authenticate_result env callbackScheme]
  /\ ends_cleanly tr
  /\ ~ In OutOfBounds tr.
Proof.
  cbv zeta. unfold authenticate_result, setup_failure.
  destruct (net_WSAStartup env =? 0) eqn:H1; cbn [negb].
  2:{ unfold authenticate. rewrite H1. cbn [negb].
      split; [reflexivity|]. split; [clean_end | no_such_event]. }
  destruct (net_socket env =? INVALID_SOCKET) eqn:H2.
  { unfold authenticate. rewrite H1, H2. cbn [negb].
    split; [reflexivity|]. split; [clean_end | no_such_event]. }
  destruct (net_bind env =? SOCKET_ERROR) eqn:H3.
  { unfold authenticate. rewrite H1, H2, H3. cbn [negb].
    split; [reflexivity|]. split; [clean_end | no_such_event]. }
  destruct (net_listen env =? SOCKET_ERROR) eqn:H4.
  { unfold authenticate. rewrite H1, H2, H3, H4. cbn [negb].
    split; [reflexivity|]. split; [clean_end | no_such_event]. }
  destruct (net_accept env =? INVALID_SOCKET) eqn:Ha.
  { unfold authenticate. rewrite H1, H2, H3, H4, Ha. cbn [negb].
    split; [reflexivity|]. split; [clean_end | no_such_event]. }
  destruct (net_recv env) as [[|c data]|] eqn:Hrecv.
  - unfold authenticate. rewrite H1, H2, H3, H4, Ha. cbn [negb].
    unfold recv_call. rewrite Hrecv, firstn_nil. cbv beta iota.
    change (Z.of_nat (length (@nil ascii)) <=? 0) with true. cbv iota.
    split; [reflexivity|]. split; [clean_end | no_such_event].
  - assert (Hc : connected env = true).
    { unfold connected, setup_ok. now rewrite H1, H2, H3, H4, Ha. }
    rewrite (@authenticate_received env url callbackScheme _ Hc Hrecv)
      by discriminate.
    unfold listening_events. cbn [app].
    split; [reflexivity|]. split; [clean_end | no_such_event].
  - unfold authenticate. rewrite H1, H2, H3, H4, Ha. cbn [negb].
    unfold recv_call. rewrite Hrecv. cbv beta iota.
    change (SOCKET_ERROR <=? 0) with true. cbv iota.
    split; [reflexivity|]. split; [clean_end | no_such_event].
Qed.

(** ** Strings *)

Lemma find_none c s : find c s = None <-> ~ In c s.
Proof.
  induction s as [|x s IH]; simpl.
  - tauto.
  - unfold char_eqb. destruct (Ascii.eqb x c) eqn:E.
    + apply Ascii.eqb_eq in E. split; [discriminate|tauto].
    + apply Ascii.eqb_neq in E.
      destruct (find c s).
      * split; [discriminate|]. intros H.
        assert (Hs : ~ In c s) by tauto.
        apply IH in Hs. discriminate.
      * split; [|reflexivity].
        intros _ [H|H]; [congruence|].
        now apply (proj1 IH eq_refl).
Qed.

Lemma find_some c s : In c s -> exists i, find c s = Some i.
Proof.
  intros Hin. destruct (find c s) eqn:E; [eauto|].
  apply find_none in E. contradiction.
Qed.

Lemma find_first c before after :
  ~ In c before ->
  find c (before ++ c :: after) = Some (length before).
Proof.
  induction before as [|x before IH]; simpl; intros Hnot.
  - unfold char_eqb. now rewrite Ascii.eqb_refl.
  - unfold char_eqb. destruct (Ascii.eqb x c) eqn:E.
    + apply Ascii.eqb_eq in E. tauto.
    + rewrite IH by tauto. reflexivity.
Qed.

Lemma decimal_ascii7 d :
  Forall (fun c => ascii7 c = true)
         (list_ascii_of_string (NilEmpty.string_of_uint d)).
Proof.
  induction d; simpl; constructor; auto.
Qed.

Lemma to_string_ascii7 n : Forall (fun c => ascii7 c = true) (to_string n).
Proof.
  unfold to_string, lit, NilZero.string_of_int, NilZero.string_of_uint.
  destruct (Z.to_int n) as [d|d].
  - destruct d; try apply decimal_ascii7. repeat constructor.
  - simpl. constructor; [reflexivity|].
    destruct d; try apply decimal_ascii7. repeat constructor.
Qed.

Lemma to_wchar_ascii7 c :
  ascii7 c = true ->
  to_wchar c = Z.of_nat (nat_of_ascii c) /\ to_wchar c <> 0.
Proof.
  unfold ascii7, to_wchar, char_value.
  rewrite andb_true_iff, Nat.leb_le, Nat.leb_le. intros [H1 H2].
  replace (Z.of_nat (nat_of_ascii c) <? 128) with true
    by (symmetry; apply Z.ltb_lt; lia).
  rewrite Z.mod_small by lia. lia.
Qed.

(** A string of 7-bit characters other than NUL is handed over whole,
    one unit per character. *)
Lemma wide_c_str_ascii7 s :
  Forall (fun c => ascii7 c = true) s ->
  wide_c_str (wstring_of s) = code_units s.
Proof.
  induction 1 as [|c s Hc Hs IH]; simpl; [reflexivity|].
  destruct (to_wchar_ascii7 c Hc) as [Heq Hnz].
  apply Z.eqb_neq in Hnz. rewrite Hnz, Heq. f_equal. exact IH.
Qed.

Lemma ntohs_range n : 0 <= ntohs n <= 65535.
Proof.
  unfold ntohs.
  pose proof (Z.mod_pos_bound n 65536 ltac:(lia)).
  generalize dependent (n mod 65536). intros x Hx.
  Z.to_euclidean_division_equations. lia.
Qed.

(** ** The claims about [authenticate] *)

Lemma promise_calls_result env url callbackScheme :
  promise_calls (authenticate env url callbackScheme)
  = [authenticate_result env callbackScheme].
Proof. apply authenticate_summary. Qed.

Lemma result_received env callbackScheme data :
  connected env = true ->
  net_recv env = Some data ->
  data <> [] ->
  authenticate_result env callbackScheme
  = Resolve (callback_value callbackScheme (request_seen data)).
Proof.
  intros Hc Hrecv Hne.
  apply connected_true in Hc as [Hs Ha].
  apply setup_ok_true in Hs as (H1 & H2 & H3 & H4).
  unfold authenticate_result, setup_failure.
  rewrite H1, H2, H3, H4, Ha, Hrecv. cbn [negb].
  destruct data; [congruence | reflexivity].
Qed.

(** C1, as stated, fails: these bytes begin with a request line whose
    path holds a '?' (a NUL is not white space, so the pattern matches
    them with that path), but [request] is built from [buf] as a C
    string and ends at the NUL, before " HTTP": nothing matches and
    [authenticate] resolves with null. *)
Lemma request_line_cut_at_NUL :
  let data := lit "GET /cb?co" ++ [NUL] ++ lit "de=1 HTTP/1.1" in
  let path := lit "/cb?co" ++ [NUL] ++ lit "de=1" in
  let tr :=
    authenticate (receiving data) (lit "https://idp.example/authorize")
                 (lit "myapp") in
  request_line data path (lit "/1.1")
  /\ regex_search data requestLineRegex = Some path
  /\ find "?" path = Some 3%nat
  /\ promise_calls tr = [Resolve JSNull]
  /\ promise_calls tr
     <> [Resolve (JSString (lit "myapp" ++ lit "://callback"
                            ++ substr path 3))].
Proof.
  cbv zeta. split; [|split; [|split; [|split]]].
  - exists [" "%char], (lit "cb?co" ++ [NUL] ++ lit "de=1"), [" "%char].
    split; [reflexivity|]. split; [reflexivity|].
    repeat split; try discriminate; repeat constructor.
  - vm_compute. reflexivity.
  - reflexivity.
  - vm_compute. reflexivity.
  - vm_compute. discriminate.
Qed.

(** C1 (amended): once a connection is accepted and bytes are read, the
    pattern is run on the bytes read (4095 at most) up to their first
    NUL; if it matches there with a path that holds a '?',
    [authenticate] resolves the promise, once, with callbackScheme,
    "://callback" and the path from its first '?' on, unchanged; if the
    path holds no '?', it resolves with null; a request line at the
    start of those bytes is such a match; and for
    "GET /callback?code=abc123&state=xyz HTTP/1.1" with scheme "myapp"
    the value is "myapp://callback?code=abc123&state=xyz". *)
Theorem authenticate_callback_url env url callbackScheme data :
  connected env = true ->
  net_recv env = Some data ->
  data <> [] ->
  let tr := authenticate env url callbackScheme in
  let request := request_seen data in
  (forall path before query,
      regex_search request requestLineRegex = Some path ->
      path = before ++ "?"%char :: query ->
      ~ In "?"%char before ->
      promise_calls tr =
        [Resolve (JSString (callbackScheme ++ lit "://callback"
                            ++ "?"%char :: query))])
  /\ (forall path,
      regex_search request requestLineRegex = Some path ->
      ~ In "?"%char path ->
      promise_calls tr = [Resolve JSNull])
  /\ (forall path rest,
      request_line request path rest ->
      regex_search request requestLineRegex = Some path)
  /\ (data = lit "GET /callback?code=abc123&state=xyz HTTP/1.1"
             ++ CRLF ++ CRLF ->
      callbackScheme = lit "myapp" ->
      promise_calls tr =
        [Resolve (JSString (lit "myapp://callback?code=abc123&state=xyz"))]).
Proof.
  intros Hc Hrecv Hne. cbv zeta.
  rewrite promise_calls_result.
  rewrite (@result_received env callbackScheme data Hc Hrecv Hne).
  unfold callback_value.
  split; [|split; [|split]].
  - intros path before query -> -> Hnot.
    rewrite (@find_first "?"%char before query Hnot). unfold substr.
    now rewrite skipn_length_app.
  - intros path -> Hnot. apply find_none in Hnot. now rewrite Hnot.
  - intros path rest. apply regex_search_anchored.
  - intros -> ->. vm_compute. reflexivity.
Qed.

Lemma authenticate_callback_url_witness :
  promise_calls
    (authenticate
       (demo_env "GET /callback?code=abc123&state=xyz HTTP/1.1")
       (lit "https://idp.example/authorize") (lit "myapp"))
  = [Resolve (JSString (lit "myapp://callback" ++ lit "?code=abc123&state=xyz"))].
Proof.
  refine (proj1 (@authenticate_callback_url
            (demo_env "GET /callback?code=abc123&state=xyz HTTP/1.1")
            (lit "https://idp.example/authorize") (lit "myapp")
            (lit "GET /callback?code=abc123&state=xyz HTTP/1.1")
            _ _ _)
          (lit "/callback?code=abc123&state=xyz") (lit "/callback")
          (lit "code=abc123&state=xyz") _ _ _).
  - reflexivity.
  - reflexivity.
  - simpl. discriminate.
  - vm_compute. reflexivity.
  - reflexivity.
  - simpl. intros H. repeat (destruct H as [H|H]; [discriminate H|]).
    exact H.
Defined.

Lemma setup_failure_none env :
  setup_failure env = None <->
  net_WSAStartup env = 0 /\ net_socket env <> INVALID_SOCKET /\
  net_bind env <> SOCKET_ERROR /\ net_listen env <> SOCKET_ERROR.
Proof.
  unfold setup_failure.
  destruct (net_WSAStartup env =? 0) eqn:H1;
    destruct (net_socket env =? INVALID_SOCKET) eqn:H2;
    destruct (net_bind env =? SOCKET_ERROR) eqn:H3;
    destruct (net_listen env =? SOCKET_ERROR) eqn:H4;
    cbn [negb];
    rewrite ?Z.eqb_eq, ?Z.eqb_neq in *;
    (split; [try discriminate; tauto | tauto]).
Qed.

Lemma setup_failure_ok env :
  setup_failure env = None <-> setup_ok env = true.
Proof.
  unfold setup_failure, setup_ok.
  destruct (net_WSAStartup env =? 0), (net_socket env =? INVALID_SOCKET),
    (net_bind env =? SOCKET_ERROR), (net_listen env =? SOCKET_ERROR);
    cbn; split; intros H; try reflexivity; discriminate.
Qed.

Lemma in_promise_calls e tr :
  is_terminal e = true -> In e tr -> In e (promise_calls tr).
Proof. intros He Hin. apply filter_In. now split. Qed.

Lemma setup_failure_some env :
  (exists message, setup_failure env = Some message) <->
  (net_WSAStartup env <> 0 \/ net_socket env = INVALID_SOCKET \/
   net_bind env = SOCKET_ERROR \/ net_listen env = SOCKET_ERROR).
Proof.
  pose proof (setup_failure_none env) as Hn.
  destruct (setup_failure env) as [m|].
  - split; [intros _|eauto].
    destruct (Z.eq_dec (net_WSAStartup env) 0); [|tauto].
    destruct (Z.eq_dec (net_socket env) INVALID_SOCKET); [tauto|].
    destruct (Z.eq_dec (net_bind env) SOCKET_ERROR); [tauto|].
    destruct (Z.eq_dec (net_listen env) SOCKET_ERROR); [tauto|].
    assert (Some m = None) by (apply Hn; tauto). discriminate.
  - split; [intros [m Hm]; discriminate|].
    destruct (proj1 Hn eq_refl) as (? & ? & ? & ?). tauto.
Qed.

Lemma rejected_result env url callbackScheme code message :
  In (Reject code message) (authenticate env url callbackScheme) ->
  authenticate_result env callbackScheme = Reject code message.
Proof.
  intros Hin. apply in_promise_calls in Hin; [|reflexivity].
  rewrite promise_calls_result in Hin.
  destruct Hin as [H|[]]. exact H.
Qed.

(** C2: [authenticate] rejects the promise exactly when Winsock
    initialisation, socket creation, bind or listen fails, and then with
    SOCKET_ERROR as its only call; when the listener is set up and accept
    fails (time-out included), or nothing is read, or the pattern does not
    match, or the path has no '?', the promise is resolved with null. *)
Theorem authenticate_rejects_only_setup_failures env url callbackScheme :
  let tr := authenticate env url callbackScheme in
  ((exists code message, In (Reject code message) tr) <->
   (net_WSAStartup env <> 0 \/ net_socket env = INVALID_SOCKET \/
    net_bind env = SOCKET_ERROR \/ net_listen env = SOCKET_ERROR))
  /\ (forall code message,
      In (Reject code message) tr ->
      code = lit "SOCKET_ERROR" /\ promise_calls tr = [Reject code message])
  /\ (net_WSAStartup env = 0 -> net_socket env <> INVALID_SOCKET ->
      net_bind env <> SOCKET_ERROR -> net_listen env <> SOCKET_ERROR ->
      (net_accept env = INVALID_SOCKET \/
       net_recv env = None \/
       net_recv env = Some [] \/
       (exists data,
           net_recv env = Some data /\
           regex_search (request_seen data) requestLineRegex = None) \/
       (exists data path,
           net_recv env = Some data /\
           regex_search (request_seen data) requestLineRegex = Some path /\
           ~ In "?"%char path)) ->
      promise_calls tr = [Resolve JSNull]).
Proof.
  cbv zeta. split; [|split].
  - rewrite <- setup_failure_some. split.
    + intros (code & message & Hin). apply rejected_result in Hin.
      unfold authenticate_result in Hin.
      destruct (setup_failure env) as [m|]; [eauto|].
      destruct (net_accept env =? INVALID_SOCKET); [discriminate|].
      destruct (net_recv env) as [[|]|]; discriminate.
    + intros [m Hm]. exists (lit "SOCKET_ERROR"), m.
      assert (Hin : In (Reject (lit "SOCKET_ERROR") m)
                       (promise_calls (authenticate env url callbackScheme))).
      { rewrite promise_calls_result. unfold authenticate_result.
        rewrite Hm. now left. }
      apply filter_In in Hin. tauto.
  - intros code message Hin. rewrite promise_calls_result.
    apply rejected_result in Hin. rewrite Hin. split; [|reflexivity].
    unfold authenticate_result in Hin.
    destruct (setup_failure env) as [m|]; [congruence|].
    destruct (net_accept env =? INVALID_SOCKET); [discriminate|].
    destruct (net_recv env) as [[|]|]; discriminate.
  - intros H1 H2 H3 H4 Hcase. rewrite promise_calls_result.
    unfold authenticate_result.
    rewrite (proj2 (setup_failure_none env)) by tauto.
    destruct (net_accept env =? INVALID_SOCKET) eqn:Ha; [reflexivity|].
    apply Z.eqb_neq in Ha.
    destruct Hcase as [Hc|[Hc|[Hc|[Hc|Hc]]]].
    + contradiction.
    + now rewrite Hc.
    + now rewrite Hc.
    + destruct Hc as (data & -> & Hs).
      destruct data; [reflexivity|].
      unfold callback_value. now rewrite Hs.
    + destruct Hc as (data & path & -> & Hs & Hq).
      destruct data; [reflexivity|].
      unfold callback_value. rewrite Hs.
      apply find_none in Hq. now rewrite Hq.
Qed.

Lemma authenticate_rejects_only_setup_failures_witness :
  promise_calls
    (authenticate (demo_env "GET /callback HTTP/1.1")
                  (lit "https://idp.example/authorize") (lit "myapp"))
  = [Resolve JSNull].
Proof.
  refine (proj2 (proj2 (@authenticate_rejects_only_setup_failures
                          (demo_env "GET /callback HTTP/1.1")
                          (lit "https://idp.example/authorize")
                          (lit "myapp"))) _ _ _ _ _).
  - reflexivity.
  - vm_compute. discriminate.
  - vm_compute. discriminate.
  - vm_compute. discriminate.
  - right. right. right. right.
    exists (lit "GET /callback HTTP/1.1"), (lit "/callback").
    split; [reflexivity|]. split; [vm_compute; reflexivity|].
    simpl. intros H. repeat (destruct H as [H|H]; [discriminate H|]).
    exact H.
Defined.

(** C3, as stated, fails: these bytes do not begin with a request line,
    yet a later occurrence of the pattern is found and [authenticate]
    resolves with a callback URL instead of null. *)
Lemma later_request_line_is_matched :
  let data :=
    lit "POST /callback HTTP/1.1" ++ CRLF
    ++ lit "X-Note: GET /callback?code=abc123 HTTP/1.1" ++ CRLF ++ CRLF in
  let env :=
    {| net_WSAStartup := 0; net_socket := 100; net_bind := 0;
       net_sin_port := 0xd204; net_listen := 0; net_accept := 104;
       net_stack := fun _ => "x"%char; net_recv := Some data;
       net_send := 165 |} in
  ~ (exists path rest, request_line (request_seen data) path rest)
  /\ promise_calls
       (authenticate env (lit "https://idp.example/authorize") (lit "myapp"))
     = [Resolve (JSString (lit "myapp://callback?code=abc123"))].
Proof.
  cbv zeta. split.
  - intros (path & rest & ws1 & p & ws2 & Heq & _).
    vm_compute in Heq. discriminate Heq.
  - vm_compute. reflexivity.
Qed.

(** C4: every run of [authenticate] ends with its only call on the
    promise, one resolve or one reject, and every socket obtained from
    [socket] or [accept] during the run has been closed when that call
    is made. *)
Theorem authenticate_one_call_sockets_closed env url callbackScheme :
  let tr := authenticate env url callbackScheme in
  (exists pre t,
      tr = pre ++ [t] /\ is_terminal t = true /\
      promise_calls pre = [] /\ held_after pre [] = [])
  /\ length (promise_calls tr) = 1%nat.
Proof.
  cbv zeta. split.
  - apply authenticate_summary.
  - now rewrite promise_calls_result.
Qed.

(** C5, as stated, fails.  A URL with a character outside 7-bit ASCII
    (here the two UTF-8 bytes of e-acute) reaches the shell with those
    bytes sign-extended to the units 0xFFC3 and 0xFFA9, so what the
    browser is given is not the caller's URL with the parameter
    appended; and a URL with a NUL in it reaches the shell cut at the
    NUL, without the parameter. *)
Lemma non_ascii_url_is_mangled :
  let url := lit "https://idp.example/caf" ++ ["195"; "169"]%char in
  let cut := lit "https://idp.example/a" ++ [NUL] ++ lit "b" in
  browser_url (authenticate (demo_env "") url (lit "myapp"))
  = Some (code_units (lit "https://idp.example/caf") ++ [65475; 65449]
          ++ code_units (lit "?redirect_uri=http://127.0.0.1:1234/callback"))
  /\ browser_url (authenticate (demo_env "") url (lit "myapp"))
     <> Some (code_units
                (url ++ lit "?redirect_uri=http://127.0.0.1:1234/callback"))
  /\ browser_url (authenticate (demo_env "") cut (lit "myapp"))
     = Some (code_units (lit "https://idp.example/a")).
Proof.
  cbv zeta. split; [|split].
  - vm_compute. reflexivity.
  - vm_compute. discriminate.
  - vm_compute. reflexivity.
Qed.

Lemma lit_ascii7 (s : string) :
  forallb ascii7 (lit s) = true -> Forall (fun c => ascii7 c = true) (lit s).
Proof. intros H. apply Forall_forall. now apply forallb_forall. Qed.

(** C5 (amended): for every caller-supplied URL made of 7-bit characters
    other than NUL, once the listener is set up the string handed to the
    shell is that URL followed by '&' if it holds a '?' and by '?'
    otherwise, then "redirect_uri=http://127.0.0.1:", the decimal port
    and "/callback", the port being the one [getsockname] reports for
    the listener, converted by [ntohs]. *)
Theorem authenticate_browser_url env url callbackScheme :
  setup_ok env = true ->
  Forall (fun c => ascii7 c = true) url ->
  let tr := authenticate env url callbackScheme in
  let port := ntohs (net_sin_port env) in
  let parameter :=
    lit "redirect_uri=http://127.0.0.1:" ++ to_string port
    ++ lit "/callback" in
  (In "?"%char url ->
   browser_url tr = Some (code_units (url ++ lit "&" ++ parameter)))
  /\ (~ In "?"%char url ->
      browser_url tr = Some (code_units (url ++ lit "?" ++ parameter)))
  /\ 0 <= port <= 65535.
Proof.
  intros Hs Hurl. cbv zeta.
  destruct (@authenticate_listening env url callbackScheme Hs) as [rest ->].
  unfold listening_events. cbn [app browser_url].
  assert (Hpar : forall sep,
             forallb ascii7 (lit sep) = true ->
             Forall (fun c => ascii7 c = true)
               (url ++ lit sep ++ lit "redirect_uri=http://127.0.0.1:"
                ++ to_string (ntohs (net_sin_port env)) ++ lit "/callback")).
  { intros sep Hsep.
    apply Forall_app; split; [exact Hurl|].
    apply Forall_app; split; [now apply lit_ascii7|].
    apply Forall_app; split; [now apply lit_ascii7|].
    apply Forall_app; split; [apply to_string_ascii7|].
    now apply lit_ascii7. }
  split; [|split].
  - intros Hin. destruct (@find_some "?"%char url Hin) as [i ->].
    f_equal. rewrite <- (wide_c_str_ascii7 (Hpar "&"%string eq_refl)).
    reflexivity.
  - intros Hnot. apply find_none in Hnot. rewrite Hnot.
    f_equal. rewrite <- (wide_c_str_ascii7 (Hpar "?"%string eq_refl)).
    reflexivity.
  - apply ntohs_range.
Qed.

Lemma authenticate_browser_url_witness :
  browser_url
    (authenticate (demo_env "") (lit "https://idp.example/authorize?x=1")
                  (lit "myapp"))
  = Some (code_units
            (lit "https://idp.example/authorize?x=1" ++ lit "&"
             ++ lit "redirect_uri=http://127.0.0.1:" ++ to_string 1234
             ++ lit "/callback")).
Proof.
  refine (proj1 (@authenticate_browser_url (demo_env "")
                   (lit "https://idp.example/authorize?x=1") (lit "myapp")
                   _ _) _).
  - reflexivity.
  - apply lit_ascii7. reflexivity.
  - simpl. do 29 right. left. reflexivity.
Defined.

Lemma with_send_result env ret callbackScheme :
  authenticate_result (with_send env ret) callbackScheme
  = authenticate_result env callbackScheme.
Proof. reflexivity. Qed.

Lemma until_NUL_before (a b : str) :
  ~ In NUL a -> until_NUL (a ++ NUL :: b) = a.
Proof.
  induction a as [|c a IH]; simpl; intros Hnot.
  - reflexivity.
  - unfold char_eqb. destruct (Ascii.eqb c NUL) eqn:E.
    + apply Ascii.eqb_eq in E. tauto.
    + rewrite IH by tauto. reflexivity.
Qed.

Ltac recv_event :=
  let Hin := fresh "Hin" in
  intros Hin; cbn [In app] in Hin;
  repeat (destruct Hin as [Hin|Hin];
          [first [discriminate Hin
                 | injection Hin as <- <- <-; split; [reflexivity|]]|]);
  try contradiction.

Lemma recv_event_bounds env url callbackScheme s len ret :
  In (recv s len ret) (authenticate env url callbackScheme) ->
  len = 4095 /\ ret <= 4095.
Proof.
  destruct (net_WSAStartup env =? 0) eqn:H1.
  2:{ unfold authenticate. rewrite H1. cbn [negb]. recv_event. }
  destruct (net_socket env =? INVALID_SOCKET) eqn:H2.
  { unfold authenticate. rewrite H1, H2. cbn [negb]. recv_event. }
  destruct (net_bind env =? SOCKET_ERROR) eqn:H3.
  { unfold authenticate. rewrite H1, H2, H3. cbn [negb]. recv_event. }
  destruct (net_listen env =? SOCKET_ERROR) eqn:H4.
  { unfold authenticate. rewrite H1, H2, H3, H4. cbn [negb]. recv_event. }
  destruct (net_accept env =? INVALID_SOCKET) eqn:Ha.
  { unfold authenticate. rewrite H1, H2, H3, H4, Ha. cbn [negb].
    recv_event. }
  destruct (net_recv env) as [[|c data]|] eqn:Hrecv.
  - unfold authenticate. rewrite H1, H2, H3, H4, Ha. cbn [negb].
    rewrite stack_buffer_length. change (Z.of_nat 4096 - 1) with 4095.
    unfold recv_call. rewrite Hrecv, firstn_nil. cbv beta iota.
    change (Z.of_nat (length (@nil ascii)) <=? 0) with true. cbv iota.
    recv_event; lia.
  - assert (Hc : connected env = true).
    { unfold connected, setup_ok. now rewrite H1, H2, H3, H4, Ha. }
    rewrite (@authenticate_received env url callbackScheme _ Hc Hrecv)
      by discriminate.
    pose proof (firstn_le_length 4095 (c :: data)) as Hle.
    apply Nat2Z.inj_le in Hle.
    generalize dependent (Z.of_nat (length (firstn 4095 (c :: data)))).
    intros n Hle. change (Z.of_nat 4095) with 4095 in Hle.
    unfold listening_events. recv_event. exact Hle.
  - unfold authenticate. rewrite H1, H2, H3, H4, Ha. cbn [negb].
    rewrite stack_buffer_length. change (Z.of_nat 4096 - 1) with 4095.
    unfold recv_call. rewrite Hrecv. cbv beta iota.
    change (SOCKET_ERROR <=? 0) with true. cbv iota.
    recv_event. unfold SOCKET_ERROR. lia.
Qed.

(** C10: the one [recv] of a run asks for 4095 bytes and returns at
    most 4095, so the terminator stored at [buf[bytesRead]] lies inside
    the 4096-byte array and no access leaves it; the value resolved is
    computed from the first 4095 bytes sent, cut at their first NUL:
    bytes beyond the 4095th and bytes after an embedded NUL are never
    seen by the pattern. *)
Theorem authenticate_read_bounds env url callbackScheme :
  let tr := authenticate env url callbackScheme in
  (forall s len ret, In (recv s len ret) tr -> len = 4095 /\ ret < 4096)
  /\ ~ In OutOfBounds tr
  /\ (forall data,
      connected env = true -> net_recv env = Some data -> data <> [] ->
      promise_calls tr =
        [Resolve (callback_value callbackScheme
                    (until_NUL (firstn 4095 data)))])
  /\ (forall data more,
      length data = 4095%nat ->
      request_seen (data ++ more) = request_seen data)
  /\ (forall a b,
      (length a < 4095)%nat -> ~ In NUL a ->
      request_seen (a ++ NUL :: b) = a).
Proof.
  cbv zeta. split; [|split; [|split; [|split]]].
  - intros s len ret Hin. apply recv_event_bounds in Hin. lia.
  - apply authenticate_summary.
  - intros data Hc Hrecv Hne. rewrite promise_calls_result.
    now rewrite (@result_received env callbackScheme data Hc Hrecv Hne).
  - intros data more Hlen. unfold request_seen.
    rewrite <- Hlen, firstn_length_app, firstn_all. reflexivity.
  - intros a b Hlen Hnot. unfold request_seen.
    rewrite firstn_app, (@firstn_all2 _ 4095 a) by lia.
    destruct (4095 - length a)%nat as [|m] eqn:E; [lia|].
    cbn [firstn]. now apply until_NUL_before.
Qed.

Lemma authenticate_read_bounds_witness :
  promise_calls
    (authenticate (demo_env "GET /callback?code=abc123 HTTP/1.1")
       (lit "https://idp.example/authorize") (lit "myapp"))
  = [Resolve (JSString (lit "myapp://callback?code=abc123"))].
Proof.
  refine (proj1 (proj2 (proj2 (@authenticate_read_bounds
            (demo_env "GET /callback?code=abc123 HTTP/1.1")
            (lit "https://idp.example/authorize") (lit "myapp"))))
          (lit "GET /callback?code=abc123 HTTP/1.1") _ _ _).
  - reflexivity.
  - reflexivity.
  - simpl. discriminate.
Defined.

(** * Further properties *)

(** ** The runs of [authenticate], path by path *)

Lemma authenticate_trace_eq env url callbackScheme :
  authenticate env url callbackScheme
  = authenticate_trace env url callbackScheme.
Proof.
  unfold authenticate_trace.
  destruct (net_WSAStartup env =? 0) eqn:H1; cbn [negb].
  2:{ unfold authenticate. rewrite H1. reflexivity. }
  destruct (net_socket env =? INVALID_SOCKET) eqn:H2.
  { unfold authenticate. rewrite H1, H2. reflexivity. }
  destruct (net_bind env =? SOCKET_ERROR) eqn:H3.
  { unfold authenticate. rewrite H1, H2, H3. reflexivity. }
  destruct (net_listen env =? SOCKET_ERROR) eqn:H4.
  { unfold authenticate. rewrite H1, H2, H3, H4. reflexivity. }
  destruct (net_accept env =? INVALID_SOCKET) eqn:Ha.
  { unfold authenticate, listening_events.
    rewrite H1, H2, H3, H4, Ha. reflexivity. }
  unfold after_accept.
  destruct (net_recv env) as [[|c data]|] eqn:Hrecv.
  - unfold authenticate, listening_events.
    rewrite H1, H2, H3, H4, Ha. cbn [negb app]. do 8 f_equal.
    rewrite stack_buffer_length. change (Z.of_nat 4096 - 1) with 4095.
    unfold recv_call. rewrite Hrecv, firstn_nil. reflexivity.
  - assert (Hc : connected env = true).
    { unfold connected, setup_ok. now rewrite H1, H2, H3, H4, Ha. }
    apply (@authenticate_received env url callbackScheme _ Hc Hrecv).
    discriminate.
  - unfold authenticate, listening_events.
    rewrite H1, H2, H3, H4, Ha. cbn [negb app]. do 8 f_equal.
    rewrite stack_buffer_length. change (Z.of_nat 4096 - 1) with 4095.
    unfold recv_call. rewrite Hrecv. reflexivity.
Qed.

(** ** The text returned by [Base64UrlEncode] *)

Lemma digit_url v :
  (v < 64)%N ->
  exists x,
    base64url_char (Base64.digit v) = [x] /\ In x base64url_alphabet.
Proof.
  intros Hv.
  assert (H : digit_url_ok v = true).
  { revert v Hv. apply below_64_cases.
    apply Forall_forall. apply forallb_forall. vm_compute. reflexivity. }
  unfold digit_url_ok in H.
  destruct (base64url_char (Base64.digit v)) as [|x [|y l]];
    try discriminate.
  exists x. split; [reflexivity|].
  apply existsb_exists in H as (y & Hy & He).
  apply Ascii.eqb_eq in He. now subst.
Qed.

Ltac digit_chars :=
  repeat match goal with
         | |- context [base64url_char (Base64.digit ?v)] =>
             let x := fresh "x" in
             let Hx := fresh "Hx" in
             let Hin := fresh "Hin" in
             destruct (@digit_url v ltac:(sextet_arith)) as (x & Hx & Hin);
             rewrite Hx
         end.

(** The unpadded text: its length and its characters. *)
Lemma base64url_text_shape data :
  let text := flat_map base64url_char (Base64.encode data) in
  (3 * length text <= 4 * length data + 2 < 3 * length text + 3)%nat
  /\ Forall (fun c => In c base64url_alphabet) text.
Proof.
  cbv zeta.
  induction data as [| a | a b | a b c l IH] using list_ind3;
    simpl Base64.encode; cbv zeta; cbn [flat_map].
  - split; [simpl; lia | constructor].
  - digit_chars. change (base64url_char Base64.pad) with (@nil ascii).
    cbn [app]. split; [simpl; lia|].
    repeat (apply Forall_cons; [assumption|]). apply Forall_nil.
  - digit_chars. change (base64url_char Base64.pad) with (@nil ascii).
    cbn [app]. split; [simpl; lia|].
    repeat (apply Forall_cons; [assumption|]). apply Forall_nil.
  - digit_chars. destruct IH as [IHl IHa].
    split; [simpl length in *; lia|].
    cbn [app]. repeat (apply Forall_cons; [assumption|]). exact IHa.
Qed.

(** X1: for a byte sequence within the 32-bit counts, the text returned
    by [Base64UrlEncode] has ceil(4n/3) characters, that is
    (4n + 2) / 3, all of them letters, digits, '-' or '_'. *)
Theorem Base64UrlEncode_length_alphabet (b : list byte) :
  Z.of_nat (length b) <= 3221225469 ->
  length (Base64UrlEncode b) = ((4 * length b + 2) / 3)%nat
  /\ Forall (fun c => In c base64url_alphabet) (Base64UrlEncode b).
Proof.
  intros Hlen. rewrite (Base64UrlEncode_text _ Hlen).
  destruct (base64url_text_shape b) as [Hl Ha].
  split; [|exact Ha].
  apply Nat.div_unique with
    (r := (4 * length b + 2
           - 3 * length (flat_map base64url_char (Base64.encode b)))%nat);
    lia.
Qed.

Lemma Base64UrlEncode_length_alphabet_witness :
  length (Base64UrlEncode [x66; x6f]) = 3%nat.
Proof.
  apply (proj1 (@Base64UrlEncode_length_alphabet [x66; x6f]
                  ltac:(simpl; lia))).
Defined.

(** X2: within the 32-bit counts [Base64UrlEncode] is injective: two
    byte sequences with the same text are the same sequence. *)
Theorem Base64UrlEncode_injective (a b : list byte) :
  Z.of_nat (length a) <= 3221225469 ->
  Z.of_nat (length b) <= 3221225469 ->
  Base64UrlEncode a = Base64UrlEncode b ->
  a = b.
Proof.
  intros Ha Hb Heq.
  pose proof (Base64Url_round_trip _ Ha) as Ra.
  pose proof (Base64Url_round_trip _ Hb) as Rb.
  rewrite Heq in Ra. congruence.
Qed.

Lemma Base64UrlEncode_injective_witness :
  [x66; x6f] = [x66; x6f].
Proof.
  apply (@Base64UrlEncode_injective [x66; x6f] [x66; x6f]).
  - simpl. lia.
  - simpl. lia.
  - reflexivity.
Defined.

Lemma text_of_32_bytes (b : list byte) (v : str) :
  length b = 32%nat ->
  v = Base64UrlEncode b ->
  length v = 43%nat /\ Forall (fun c => In c base64url_alphabet) v.
Proof.
  intros Hb ->.
  destruct (@Base64UrlEncode_length_alphabet b) as [Hl Ha]; [lia|].
  split; [|exact Ha]. rewrite Hl, Hb. reflexivity.
Qed.

(** X3: whatever the generator returns, a verifier that
    [generateCodeVerifier] resolves with has exactly 43 characters, all
    of them letters, digits, '-' or '_'. *)
Theorem generateCodeVerifier_text (env : RngEnv) (v : str) :
  In (Resolve (JSString v)) (generateCodeVerifier env) ->
  length v = 43%nat /\ Forall (fun c => In c base64url_alphabet) v.
Proof.
  unfold generateCodeVerifier, BCryptGenRandom_call.
  change (to_DWORD (Z.of_nat (length (repeat x00 32)))) with 32.
  destruct (BCRYPT_SUCCESS (rng_status env)) eqn:Hs; cbv iota beta;
    rewrite Hs; cbn [negb In].
  - intros [H|[H|[]]]; [discriminate|].
    match type of H with
    | Resolve (JSString ?t) = _ => assert (Hv : v = t) by congruence
    end.
    clear H. revert Hv.
    apply (@text_of_32_bytes
             (map (rng_octet env) (seq 0 (Z.to_nat 32))
              ++ skipn (Z.to_nat 32) (repeat x00 32))).
    rewrite length_app, length_map, length_seq. reflexivity.
  - intros [H|[H|[]]]; discriminate.
Qed.

Lemma generateCodeVerifier_text_witness :
  length (lit "KioqKioqKioqKioqKioqKioqKioqKioqKioqKioqKio") = 43%nat.
Proof.
  apply (@generateCodeVerifier_text
           {| rng_status := 0; rng_octet := fun _ => x2a |}).
  vm_compute. right. left. reflexivity.
Defined.

(** X4: whatever the input and the handles, a text that [sha256]
    resolves with has exactly 43 characters, all of them letters,
    digits, '-' or '_'. *)
Theorem sha256_text (env : CngEnv) (input v : str) :
  In (Resolve (JSString v)) (sha256 env input) ->
  length v = 43%nat /\ Forall (fun c => In c base64url_alphabet) v.
Proof.
  unfold sha256, BCryptFinishHash_call.
  destruct (BCRYPT_SUCCESS (cng_open_status env)); cbn [negb In];
    [|intros [H|[H|[]]]; discriminate].
  destruct (BCRYPT_SUCCESS (cng_create_status env)); cbn [negb In];
    [|intros [H|[H|[H|[H|[]]]]]; discriminate].
  destruct (BCRYPT_SUCCESS (cng_hash_status env)); cbn [negb In];
    [|intros [H|[H|[H|[H|[H|[H|[]]]]]]]; discriminate].
  destruct (BCRYPT_SUCCESS (cng_finish_status env)) eqn:Hf;
    cbv beta iota; rewrite ?Hf; cbn [negb In];
    intros [H|[H|[H|[H|[H|[H|[H|[]]]]]]]]; try discriminate.
  match type of H with
  | Resolve (JSString ?t) = _ => assert (Hv : v = t) by congruence
  end.
  clear H. revert Hv.
  change (Z.to_nat (to_DWORD (Z.of_nat (length (repeat x00 32)))))
    with 32%nat.
  rewrite firstn_digest.
  change (skipn 32 (repeat x00 32)) with (@nil byte). rewrite app_nil_r.
  apply text_of_32_bytes, digest_length.
Qed.

Lemma sha256_text_witness :
  length (lit "ungWv48Bz-pBQUDeXa4iI7ADYaOWF3qctBD_YfIAFa0") = 43%nat.
Proof.
  apply (@sha256_text cng_ok (lit "abc")).
  vm_compute. do 6 right. left. reflexivity.
Defined.

(** ** What a run of [authenticate] calls, and how often *)

(** Go through the paths of a run, with the answers of the environment
    that select each one at hand. *)
Ltac run_paths env :=
  rewrite ?authenticate_trace_eq;
  unfold authenticate_trace, after_accept, listening_events;
  destruct (net_WSAStartup env =? 0) eqn:H1; cbn [negb];
  [destruct (net_socket env =? INVALID_SOCKET) eqn:H2;
   [|destruct (net_bind env =? SOCKET_ERROR) eqn:H3;
     [|destruct (net_listen env =? SOCKET_ERROR) eqn:H4;
       [|destruct (net_accept env =? INVALID_SOCKET) eqn:Ha;
         [|destruct (net_recv env) as [[|c0 data0]|] eqn:Hrecv]]]]|];
  cbn [app andb negb].

(** Split an explicit run before its last two events. *)
Ltac last_two :=
  match goal with
  | |- exists pre t, ?e1 :: ?tr = pre ++ [_; t] /\ _ =>
      let n := eval cbn [length Nat.pred] in
                 (Nat.pred (Nat.pred (length (e1 :: tr)))) in
      exists (firstn n (e1 :: tr)), (last tr e1);
      cbn [firstn last app]; split; reflexivity
  end.

(** X5: a run of [authenticate] calls [WSACleanup] exactly once when
    [WSAStartup] succeeded and never when it failed; when it is called
    it is the last thing done before the promise is resolved or
    rejected. *)
Theorem authenticate_winsock_released env url callbackScheme :
  let tr := authenticate env url callbackScheme in
  count is_WSACleanup tr
  = (if net_WSAStartup env =? 0 then 1%nat else 0%nat)
  /\ ((net_WSAStartup env =? 0) = true ->
      exists pre t, tr = pre ++ [WSACleanup; t] /\ is_terminal t = true).
Proof.
  cbv zeta. split.
  - run_paths env; reflexivity.
  - run_paths env; intros Hok; try discriminate Hok; last_two.
Qed.

Lemma authenticate_winsock_released_witness :
  exists pre t,
    authenticate (demo_env "") (lit "https://idp.example/authorize")
                 (lit "myapp")
    = pre ++ [WSACleanup; t] /\ is_terminal t = true.
Proof.
  apply (proj2 (@authenticate_winsock_released (demo_env "")
                  (lit "https://idp.example/authorize") (lit "myapp"))).
  reflexivity.
Defined.

(** X6: the browser is opened exactly once when socket set-up, bind and
    listen all succeeded, and then after the successful [listen] and
    before the only [accept]; when one of them failed the browser is not
    opened and nothing is accepted, read or sent. *)
Theorem authenticate_opens_browser_when_listening env url callbackScheme :
  let tr := authenticate env url callbackScheme in
  count is_ShellExecuteW tr = (if setup_ok env then 1 else 0)%nat
  /\ count is_accept tr = (if setup_ok env then 1 else 0)%nat
  /\ (setup_ok env = false ->
      count is_recv tr = 0%nat /\ count is_send tr = 0%nat)
  /\ (setup_ok env = true ->
      exists before file after,
        tr = before ++ ShellExecuteW (wstring_of (lit "open")) file :: after
        /\ In (listen (net_socket env) 1 (net_listen env)) before
        /\ net_listen env <> SOCKET_ERROR
        /\ count is_accept before = 0%nat).
Proof.
  cbv zeta. unfold setup_ok. split; [|split; [|split]].
  - run_paths env; reflexivity.
  - run_paths env; reflexivity.
  - run_paths env; intros Hs; try discriminate Hs; split; reflexivity.
  - intros Hs.
    destruct (@authenticate_listening env url callbackScheme Hs)
      as [rest ->].
    apply setup_ok_true in Hs as (_ & _ & _ & H4).
    apply Z.eqb_neq in H4.
    unfold listening_events.
    eexists [_; _; _; _; _], _, _. split; [reflexivity|].
    split; [|split; [exact H4 | reflexivity]].
    cbn [In]. do 4 right. left. reflexivity.
Qed.

Lemma authenticate_opens_browser_when_listening_witness :
  exists before file after,
    authenticate (demo_env "x") (lit "u") (lit "myapp")
    = before ++ ShellExecuteW (wstring_of (lit "open")) file :: after
    /\ In (listen 100 1 0) before
    /\ 0 <> SOCKET_ERROR
    /\ count is_accept before = 0%nat.
Proof.
  apply (proj2 (proj2 (proj2
    (@authenticate_opens_browser_when_listening
       (demo_env "x") (lit "u") (lit "myapp"))))).
  reflexivity.
Defined.

(** X7: a run serves one connection at most: [recv] is called exactly
    once when a connection was accepted and never otherwise, and the
    response is sent exactly once when that [recv] returned a positive
    count and never otherwise. *)
Theorem authenticate_one_shot env url callbackScheme :
  let tr := authenticate env url callbackScheme in
  count is_recv tr = (if connected env then 1 else 0)%nat
  /\ count is_send tr
     = (if connected env && bytes_read env then 1 else 0)%nat.
Proof.
  cbv zeta. unfold connected, setup_ok, bytes_read.
  split; run_paths env; reflexivity.
Qed.

(** X8: a rejection names the first set-up step that failed: Winsock
    initialisation, then socket creation, then bind, then listen. *)
Theorem authenticate_reject_message env url callbackScheme :
  let tr := authenticate env url callbackScheme in
  let rejected (message : string) :=
    promise_calls tr = [Reject (lit "SOCKET_ERROR") (lit message)] in
  (net_WSAStartup env <> 0 -> rejected "Failed to initialize Winsock"%string)
  /\ (net_WSAStartup env = 0 -> net_socket env = INVALID_SOCKET ->
      rejected "Failed to create socket"%string)
  /\ (net_WSAStartup env = 0 -> net_socket env <> INVALID_SOCKET ->
      net_bind env = SOCKET_ERROR ->
      rejected "Failed to bind socket"%string)
  /\ (net_WSAStartup env = 0 -> net_socket env <> INVALID_SOCKET ->
      net_bind env <> SOCKET_ERROR -> net_listen env = SOCKET_ERROR ->
      rejected "Failed to listen on socket"%string).
Proof.
  cbv zeta. rewrite promise_calls_result.
  unfold authenticate_result, setup_failure.
  repeat split; intros;
    repeat match goal with
           | H : _ = _ |- _ => apply Z.eqb_eq in H; rewrite H
           | H : _ <> _ |- _ => apply Z.eqb_neq in H; rewrite H
           end; reflexivity.
Qed.

Lemma authenticate_reject_message_witness :
  promise_calls
    (authenticate
       {| net_WSAStartup := 0; net_socket := 100; net_bind := -1;
          net_sin_port := 0; net_listen := 0; net_accept := 104;
          net_stack := fun _ => "x"%char; net_recv := None;
          net_send := 0 |}
       (lit "u") (lit "myapp"))
  = [Reject (lit "SOCKET_ERROR") (lit "Failed to bind socket")].
Proof.
  refine (proj1 (proj2 (proj2 (@authenticate_reject_message
            {| net_WSAStartup := 0; net_socket := 100; net_bind := -1;
               net_sin_port := 0; net_listen := 0; net_accept := 104;
               net_stack := fun _ => "x"%char; net_recv := None;
               net_send := 0 |}
            (lit "u") (lit "myapp")))) _ _ _).
  - reflexivity.
  - vm_compute. discriminate.
  - reflexivity.
Defined.

(** ** Handles and sockets are used while held *)

Ltac use_step :=
  cbn [uses_held used acquired released holds existsb remove_one
       resource_eqb andb orb negb];
  repeat match goal with
         | H : ?b = _ |- context [?b] => rewrite H
         end;
  rewrite ?Z.eqb_refl, ?orb_true_r.

(** X9: in every run of [authenticate] each Winsock call is made on a
    socket that was obtained earlier in the run and not closed since:
    no call on an invalid or closed socket, no socket closed twice. *)
Theorem authenticate_uses_open_sockets env url callbackScheme :
  uses_held (authenticate env url callbackScheme) [] = true.
Proof.
  run_paths env; repeat (progress use_step); reflexivity.
Qed.

(** X10: in every run of [sha256] each provider call is made on a handle
    that was obtained earlier in the run and not released since: the
    hash object is fed and finished only after it was created, and no
    handle is released twice. *)
Theorem sha256_uses_live_handles env input :
  uses_held (sha256 env input) [] = true.
Proof.
  unfold sha256, BCryptFinishHash_call.
  destruct (BCRYPT_SUCCESS (cng_open_status env)) eqn:Ho; cbn [negb];
    [|repeat (progress use_step); reflexivity].
  destruct (BCRYPT_SUCCESS (cng_create_status env)) eqn:Hc; cbn [negb];
    [|repeat (progress use_step); reflexivity].
  destruct (BCRYPT_SUCCESS (cng_hash_status env)) eqn:Hh; cbn [negb];
    [|repeat (progress use_step); reflexivity].
  destruct (BCRYPT_SUCCESS (cng_finish_status env)) eqn:Hf;
    cbv beta iota; rewrite ?Hf; cbn [negb]; cbv iota;
    repeat (progress use_step); reflexivity.
Qed.

(** X11: what the stack held where [buf] is placed has no effect on a
    run: with any other content every call and its arguments are the
    same. *)
Theorem authenticate_ignores_stack env stack url callbackScheme :
  authenticate (with_stack env stack) url callbackScheme
  = authenticate env url callbackScheme.
Proof.
  rewrite !authenticate_trace_eq. reflexivity.
Qed.

(** ** The value resolved *)

Lemma find_split c s i :
  find c s = Some i ->
  exists before after, s = before ++ c :: after /\ length before = i.
Proof.
  revert i. induction s as [|x s IH]; simpl; intros i H; [discriminate|].
  unfold char_eqb in H. destruct (Ascii.eqb x c) eqn:E.
  - apply Ascii.eqb_eq in E. subst x. injection H as <-.
    exists [], s. split; reflexivity.
  - destruct (find c s) as [j|]; [|discriminate]. injection H as <-.
    destruct (IH j eq_refl) as (before & after & -> & <-).
    exists (x :: before), after. split; reflexivity.
Qed.

Lemma until_NUL_no_NUL s : ~ In NUL (until_NUL s).
Proof.
  induction s as [|c s IH]; simpl; [tauto|].
  unfold char_eqb. destruct (Ascii.eqb c NUL) eqn:E; simpl; [tauto|].
  apply Ascii.eqb_neq in E. intros [H|H]; [congruence | contradiction].
Qed.

Lemma resolved_string env callbackScheme v :
  authenticate_result env callbackScheme = Resolve (JSString v) ->
  exists data,
    callback_value callbackScheme (request_seen data) = JSString v.
Proof.
  unfold authenticate_result.
  destruct (setup_failure env); [discriminate|].
  destruct (net_accept env =? INVALID_SOCKET); [discriminate|].
  destruct (net_recv env) as [[|c data]|]; try discriminate.
  intros H. exists (c :: data). congruence.
Qed.

(** X12: a string that [authenticate] resolves with is callbackScheme,
    "://callback?" and a query in which there is no white space and no
    NUL; in particular it is never empty and always holds a '?'. *)
Theorem authenticate_resolved_string env url callbackScheme v :
  In (Resolve (JSString v)) (authenticate env url callbackScheme) ->
  exists query,
    v = callbackScheme ++ lit "://callback?" ++ query /\
    Forall (fun c => isspace c = false /\ c <> NUL) query.
Proof.
  intros Hin. apply in_promise_calls in Hin; [|reflexivity].
  rewrite promise_calls_result in Hin. destruct Hin as [Hin|[]].
  apply resolved_string in Hin as [data Hv].
  unfold callback_value in Hv.
  destruct (regex_search (request_seen data) requestLineRegex)
    as [path|] eqn:Hs; [|discriminate].
  destruct (find "?" path) as [i|] eqn:Hq; [|discriminate].
  assert (Hv' : v = callbackScheme ++ lit "://callback" ++ substr path i)
    by congruence.
  clear Hv.
  apply find_split in Hq as (front & query & -> & <-).
  unfold substr in Hv'. rewrite skipn_length_app in Hv'.
  exists query. split; [exact Hv'|].
  apply regex_search_sound in Hs as (before & tail & rest & Hreq & Hline).
  destruct Hline as (ws1 & p & ws2 & -> & Hpath & _ & [_ Hp] & _).
  assert (Hnul : forall c, In c query -> c <> NUL).
  { intros c Hc ->. apply (until_NUL_no_NUL (firstn 4095 data)).
    fold (request_seen data). rewrite Hreq.
    apply in_or_app. right. apply in_or_app. right.
    apply in_or_app. right. apply in_or_app. left.
    apply in_or_app. right. now right. }
  assert (Hsp : Forall (fun c => isspace c = false) (front ++ "?"%char :: query)).
  { rewrite Hpath. constructor; [reflexivity | exact Hp]. }
  apply Forall_app in Hsp as [_ Hsp]. inversion Hsp as [|? ? _ Hq]; subst.
  rewrite Forall_forall in *. intros c Hc. split; auto.
Qed.

Lemma authenticate_resolved_string_witness :
  exists query,
    lit "myapp://callback?code=abc123" =
    lit "myapp" ++ lit "://callback?" ++ query /\
    Forall (fun c => isspace c = false /\ c <> NUL) query.
Proof.
  apply (@authenticate_resolved_string
           (demo_env "GET /callback?code=abc123 HTTP/1.1")
           (lit "https://idp.example/authorize") (lit "myapp")).
  vm_compute. do 13 right. left. reflexivity.
Defined.

(** ** The leftmost request line *)

Lemma search_from_skip re before tail pos :
  (forall b1 b2,
      before = b1 ++ b2 -> b2 <> [] ->
      match_here re (b2 ++ tail) (pos + length b1)%nat (0, 0)%nat = None) ->
  search_from re (before ++ tail) pos
  = search_from re tail (pos + length before)%nat.
Proof.
  revert pos. induction before as [|c before IH]; intros pos Hnone.
  - simpl. now rewrite Nat.add_0_r.
  - simpl app. simpl search_from.
    pose proof (Hnone [] (c :: before) eq_refl ltac:(discriminate)) as H0.
    simpl in H0. rewrite Nat.add_0_r in H0. rewrite H0.
    rewrite IH.
    + simpl. now rewrite Nat.add_succ_r.
    + intros b1 b2 -> Hne.
      specialize (Hnone (c :: b1) b2 eq_refl Hne).
      simpl in Hnone. now rewrite Nat.add_succ_r in Hnone.
Qed.

(** X13: [regex_search] with the pattern of [authenticate] returns the
    path of the leftmost request line: when a request line starts at
    some offset of the subject and none starts at an earlier offset, the
    group is the path of that request line, whatever follows it; and a
    request line at a given offset has only one path. *)
Theorem regex_search_leftmost (before tail path rest : str) :
  request_line tail path rest ->
  (forall b1 b2,
      before = b1 ++ b2 -> b2 <> [] ->
      forall p r, ~ request_line (b2 ++ tail) p r) ->
  regex_search (before ++ tail) requestLineRegex = Some path
  /\ (forall path' rest', request_line tail path' rest' -> path' = path).
Proof.
  intros Hline Hfirst. split.
  - unfold regex_search. rewrite search_from_skip.
    + destruct (@match_here_complete tail path rest (0 + length before)
                  (0, 0)%nat Hline) as (ws1 & tl & -> & Hm).
      rewrite (search_from_first _ _ _ Hm). f_equal.
      apply (capture_is_path before ws1 path tl).
    + intros b1 b2 Hb Hne.
      destruct (match_here requestLineRegex (b2 ++ tail)
                  (0 + length b1) (0, 0)%nat) as [[b e]|] eqn:Hm;
        [|reflexivity].
      apply match_here_sound in Hm as (ws1 & p & tl & r & _ & Hl & _).
      exfalso. exact (Hfirst b1 b2 Hb Hne p r Hl).
  - intros path' rest' Hline'.
    apply regex_search_anchored in Hline, Hline'. congruence.
Qed.

Lemma regex_search_leftmost_witness :
  regex_search ([" "%char] ++ lit "GET /cb?x=1 HTTP/1.1") requestLineRegex
  = Some (lit "/cb?x=1").
Proof.
  refine (proj1 (@regex_search_leftmost [" "%char]
                   (lit "GET /cb?x=1 HTTP/1.1") (lit "/cb?x=1")
                   (lit "/1.1") _ _)).
  - exists [" "%char], (lit "cb?x=1"), [" "%char].
    split; [reflexivity|]. split; [reflexivity|].
    repeat split; try discriminate; repeat constructor.
  - intros b1 b2 Hb Hne p r (ws1 & p0 & ws2 & Heq & _).
    destruct b1 as [|c [|c' b1]]; simpl in Hb.
    + subst b2. vm_compute in Heq. discriminate Heq.
    + injection Hb as _ Hb. congruence.
    + discriminate Hb.
Defined.

(** ** A request line that does not end within what was read *)

Section NoMatch.

Variable R : Type.
Variable a : atom.
Variable k : str -> nat -> option R.

(** The loop fails when its continuation fails wherever the loop may
    stop. *)
Lemma repeat_atom_none (P : str -> Prop) s pos :
  (forall c s', P (c :: s') -> P s') ->
  (forall s' pos', P s' -> k s' pos' = None) ->
  P s ->
  repeat_atom a k s pos = None.
Proof.
  intros Htail Hk. revert pos.
  induction s as [|c s IH]; intros pos HP; simpl; [reflexivity|].
  destruct (atom_matches a c); [|reflexivity].
  rewrite IH by (eapply Htail; eassumption).
  apply Hk. eapply Htail; eassumption.
Qed.

End NoMatch.

Lemma no_space_tail (c : ascii) (s : str) :
  Forall (fun c => isspace c = false) (c :: s) ->
  Forall (fun c => isspace c = false) s.
Proof. intros H. now inversion H. Qed.

Lemma space_then_text_tail c s :
  space_then_text (c :: s) -> space_then_text s.
Proof.
  intros (ws & t & Heq & Hws & Ht).
  destruct ws as [|x ws]; simpl in Heq.
  - subst t. exists [], s. repeat split; [constructor|].
    now apply no_space_tail in Ht.
  - injection Heq as -> ->. exists ws, t. repeat split; auto.
    now inversion Hws.
Qed.

Lemma space_loop_no_space (R : Type) (k : str -> nat -> option R) s pos :
  Forall (fun c => isspace c = false) s ->
  repeat_atom Space k s pos = None.
Proof.
  intros H. destruct s as [|c s]; simpl; [reflexivity|].
  inversion H as [|? ? Hc _]; subst. now rewrite Hc.
Qed.

Lemma after_group_no_space s pos cap :
  Forall (fun c => isspace c = false) s ->
  match_here after_group s pos cap = None.
Proof.
  intros H. unfold after_group. cbn [match_here].
  now apply space_loop_no_space.
Qed.

Lemma from_group_no_space s pos cap :
  Forall (fun c => isspace c = false) s ->
  match_here from_group s pos cap = None.
Proof.
  intros H. unfold from_group. cbn [match_here].
  destruct s as [|c s]; [reflexivity|].
  destruct (atom_matches (Chr "/") c); [|reflexivity].
  apply repeat_atom_none
    with (P := fun s => Forall (fun c => isspace c = false) s).
  - intros x s'. apply no_space_tail.
  - intros s' pos' Hs'. now apply after_group_no_space.
  - now apply no_space_tail in H.
Qed.

Lemma from_group_space_then_text s pos cap :
  space_then_text s -> match_here from_group s pos cap = None.
Proof.
  intros (ws & t & -> & Hws & Ht).
  destruct ws as [|c ws].
  - now apply from_group_no_space.
  - unfold from_group. cbn [match_here app].
    inversion Hws as [|? ? Hc _]; subst.
    replace (atom_matches (Chr "/") c) with false; [reflexivity|].
    symmetry. simpl. unfold char_eqb. apply Ascii.eqb_neq.
    intros ->. discriminate Hc.
Qed.

Lemma match_here_space_then_text s pos cap :
  space_then_text s -> match_here requestLineRegex s pos cap = None.
Proof.
  intros (ws & t & -> & Hws & Ht).
  unfold requestLineRegex.
  destruct ws as [|c ws].
  - cbn [app match_here].
    destruct t as [|c0 t]; [reflexivity|].
    destruct (atom_matches (Chr "G") c0); [|reflexivity].
    apply no_space_tail in Ht.
    destruct t as [|c1 t]; [reflexivity|].
    destruct (atom_matches (Chr "E") c1); [|reflexivity].
    apply no_space_tail in Ht.
    destruct t as [|c2 t]; [reflexivity|].
    destruct (atom_matches (Chr "T") c2); [|reflexivity].
    apply no_space_tail in Ht.
    now apply space_loop_no_space.
  - cbn [app match_here].
    inversion Hws as [|? ? Hc _]; subst.
    replace (atom_matches (Chr "G") c) with false; [reflexivity|].
    symmetry. simpl. unfold char_eqb. apply Ascii.eqb_neq.
    intros ->. discriminate Hc.
Qed.

Lemma search_from_space_then_text s pos :
  space_then_text s -> search_from requestLineRegex s pos = None.
Proof.
  revert pos. induction s as [|c s IH]; intros pos Hs; cbn [search_from].
  - now rewrite match_here_space_then_text.
  - rewrite match_here_space_then_text by exact Hs.
    apply IH. eapply space_then_text_tail; eassumption.
Qed.

(** After "GET", white space and text to the end: the pattern matches
    nowhere. *)
Lemma regex_search_unfinished s :
  space_then_text s ->
  regex_search (lit "GET" ++ s) requestLineRegex = None.
Proof.
  intros Hs. unfold regex_search.
  cbn [lit list_ascii_of_string app search_from].
  assert (H0 : match_here requestLineRegex
                 ("G"%char :: "E"%char :: "T"%char :: s) 0 (0, 0)%nat
               = None).
  { unfold requestLineRegex. cbn [match_here atom_matches].
    unfold char_eqb. rewrite !Ascii.eqb_refl.
    apply repeat_atom_none with (P := space_then_text).
    - apply space_then_text_tail.
    - intros s' pos' Hs'. now apply from_group_space_then_text.
    - exact Hs. }
  rewrite H0.
  assert (H1 : forall t pos cap,
             match_here requestLineRegex ("E"%char :: t) pos cap = None)
    by reflexivity.
  assert (H2 : forall t pos cap,
             match_here requestLineRegex ("T"%char :: t) pos cap = None)
    by reflexivity.
  rewrite H1, H2.
  now rewrite search_from_space_then_text.
Qed.

Lemma until_NUL_space_then_text s :
  space_then_text s -> space_then_text (until_NUL s).
Proof.
  intros (ws & t & -> & Hws & Ht).
  induction Hws as [|c ws Hc Hws IH]; simpl.
  - exists [], (until_NUL t). repeat split; [constructor|].
    induction Ht as [|c t Hc Ht IHt]; simpl; [constructor|].
    destruct (char_eqb c NUL); constructor; auto.
  - destruct (char_eqb c NUL).
    + exists [], []. repeat split; constructor.
    + destruct IH as (ws' & t' & Heq & Hws' & Ht').
      exists (c :: ws'), t'. simpl. rewrite Heq.
      repeat split; auto.
Qed.

(** X14: when the bytes read (4095 at most) are "GET", white space and
    then characters without any white space up to the end of what was
    read, [authenticate] resolves with null: a request line whose path
    and query run past the 4095th byte is not recognised, however well
    formed the whole request is. *)
Theorem authenticate_unfinished_request_line
    env url callbackScheme data s :
  connected env = true ->
  net_recv env = Some data ->
  firstn 4095 data = lit "GET" ++ s ->
  space_then_text s ->
  promise_calls (authenticate env url callbackScheme) = [Resolve JSNull].
Proof.
  intros Hc Hrecv Hdata Hs.
  assert (Hne : data <> []).
  { intros ->. discriminate Hdata. }
  rewrite promise_calls_result.
  rewrite (@result_received env callbackScheme data Hc Hrecv Hne).
  unfold callback_value, request_seen. rewrite Hdata.
  change (until_NUL (lit "GET" ++ s)) with (lit "GET" ++ until_NUL s).
  rewrite regex_search_unfinished; [reflexivity|].
  now apply until_NUL_space_then_text.
Qed.

Lemma authenticate_unfinished_request_line_witness :
  promise_calls
    (authenticate
       {| net_WSAStartup := 0; net_socket := 100; net_bind := 0;
          net_sin_port := 0xd204; net_listen := 0; net_accept := 104;
          net_stack := fun _ => "x"%char;
          net_recv := Some (lit "GET /callback?code="
                            ++ repeat "a"%char 4200
                            ++ lit " HTTP/1.1");
          net_send := 165 |}
       (lit "https://idp.example/authorize") (lit "myapp"))
  = [Resolve JSNull].
Proof.
  refine (@authenticate_unfinished_request_line _ _ _
            (lit "GET /callback?code=" ++ repeat "a"%char 4200
             ++ lit " HTTP/1.1")
            (lit " /callback?code=" ++ repeat "a"%char 4076) _ _ _ _).
  - reflexivity.
  - reflexivity.
  - vm_compute. reflexivity.
  - exists [" "%char], (lit "/callback?code=" ++ repeat "a"%char 4076).
    split; [reflexivity|]. split; [repeat constructor|].
    assert (H : forallb (fun c => negb (isspace c))
                  (lit "/callback?code=" ++ repeat "a"%char 4076) = true)
      by (vm_compute; reflexivity).
    apply Forall_forall. intros c Hc. apply negb_true_iff.
    exact (proj1 (forallb_forall _ _) H c Hc).
Defined.

(** ** The leftmost request line decides the value resolved *)

Lemma regex_search_first_request_line (before tail path rest : str) :
  request_line tail path rest ->
  (forall b1 b2,
      before = b1 ++ b2 -> b2 <> [] ->
      forall p r, ~ request_line (b2 ++ tail) p r) ->
  regex_search (before ++ tail) requestLineRegex = Some path.
Proof.
  intros Hline Hfirst. unfold regex_search. rewrite search_from_skip.
  - destruct (@match_here_complete tail path rest (0 + length before)
                (0, 0)%nat Hline) as (ws1 & tl & -> & Hm).
    rewrite (search_from_first _ _ _ Hm). f_equal.
    apply (capture_is_path before ws1 path tl).
  - intros b1 b2 Hb Hne.
    destruct (match_here requestLineRegex (b2 ++ tail)
                (0 + length b1) (0, 0)%nat) as [[b e]|] eqn:Hm;
      [|reflexivity].
    apply match_here_sound in Hm as (ws1 & p & tl & r & _ & Hl & _).
    exfalso. exact (Hfirst b1 b2 Hb Hne p r Hl).
Qed.

(** C3 (amended): the pattern is searched for at every offset of the
    bytes read (up to their first NUL), not only at their start, and the
    leftmost occurrence is the one used.  The search succeeds exactly
    when a request line occurs somewhere in those bytes; when none
    occurs anywhere [authenticate] resolves with null; and when a
    request line starts at some offset and none starts before it, the
    path of that request line is the one extracted: the promise is
    resolved with callbackScheme, "://callback" and that path from its
    first '?' on, or with null when that path holds no '?'. *)
Theorem authenticate_no_request_line env url callbackScheme data :
  connected env = true ->
  net_recv env = Some data ->
  data <> [] ->
  let tr := authenticate env url callbackScheme in
  (occurs (request_seen data) <->
   exists path,
     regex_search (request_seen data) requestLineRegex = Some path)
  /\ (~ occurs (request_seen data) -> promise_calls tr = [Resolve JSNull])
  /\ (forall before tail path rest,
      request_seen data = before ++ tail ->
      request_line tail path rest ->
      (forall b1 b2,
          before = b1 ++ b2 -> b2 <> [] ->
          forall p r, ~ request_line (b2 ++ tail) p r) ->
      regex_search (request_seen data) requestLineRegex = Some path
      /\ (forall front query,
          path = front ++ "?"%char :: query ->
          ~ In "?"%char front ->
          promise_calls tr =
            [Resolve (JSString (callbackScheme ++ lit "://callback"
                                ++ "?"%char :: query))])
      /\ (~ In "?"%char path -> promise_calls tr = [Resolve JSNull])).
Proof.
  intros Hc Hrecv Hne. cbv zeta.
  assert (Hiff : occurs (request_seen data) <->
                 exists path,
                   regex_search (request_seen data) requestLineRegex
                   = Some path).
  { split.
    - intros Hocc. apply regex_search_complete in Hocc.
      destruct (regex_search (request_seen data) requestLineRegex);
        [eauto|congruence].
    - intros [path Hs].
      apply regex_search_sound in Hs as (before & tail & rest & -> & Hl).
      exists before, path, rest, tail. auto. }
  rewrite promise_calls_result.
  rewrite (@result_received env callbackScheme data Hc Hrecv Hne).
  unfold callback_value.
  split; [exact Hiff|]. split.
  - intros Hnot.
    destruct (regex_search (request_seen data) requestLineRegex) eqn:Hs;
      [|reflexivity].
    exfalso. apply Hnot, Hiff. eauto.
  - intros before tail path rest Hreq Hline Hfirst.
    pose proof (@regex_search_first_request_line before tail path rest
                  Hline Hfirst) as Hs.
    rewrite <- Hreq in Hs. rewrite Hs.
    split; [reflexivity|]. split.
    + intros front query -> Hnot.
      rewrite (@find_first "?"%char front query Hnot). unfold substr.
      now rewrite skipn_length_app.
    + intros Hnot. apply find_none in Hnot. now rewrite Hnot.
Qed.

Lemma authenticate_no_request_line_witness :
  promise_calls
    (authenticate (receiving (CRLF ++ lit "GET /cb?x=1 HTTP/1.1"))
                  (lit "https://idp.example/authorize") (lit "myapp"))
  = [Resolve (JSString (lit "myapp" ++ lit "://callback"
                        ++ "?"%char :: lit "x=1"))].
Proof.
  refine (proj1 (proj2 (proj2 (proj2
            (@authenticate_no_request_line
               (receiving (CRLF ++ lit "GET /cb?x=1 HTTP/1.1"))
               (lit "https://idp.example/authorize") (lit "myapp")
               (CRLF ++ lit "GET /cb?x=1 HTTP/1.1") _ _ _))
          CRLF (lit "GET /cb?x=1 HTTP/1.1") (lit "/cb?x=1") (lit "/1.1")
          _ _ _))
          (lit "/cb") (lit "x=1") _ _).
  - reflexivity.
  - reflexivity.
  - simpl. discriminate.
  - vm_compute. reflexivity.
  - exists [" "%char], (lit "cb?x=1"), [" "%char].
    split; [reflexivity|]. split; [reflexivity|].
    repeat split; try discriminate; repeat constructor.
  - intros b1 b2 Hb Hne p r (ws1 & p0 & ws2 & Heq & _).
    destruct b1 as [|c [|c' [|c'' b1]]]; simpl in Hb.
    + subst b2. vm_compute in Heq. discriminate Heq.
    + injection Hb as _ Hb. subst b2. vm_compute in Heq. discriminate Heq.
    + injection Hb as _ _ Hb. congruence.
    + discriminate Hb.
  - reflexivity.
  - simpl. intros H. repeat (destruct H as [H|H]; [discriminate H|]).
    exact H.
Defined.

(** ** The response comes before parsing *)

Lemma calls_of_call e points :
  calls_of (Call e :: points) = e :: calls_of points.
Proof. reflexivity. Qed.

Lemma calls_of_parse request points :
  calls_of (Parse request :: points) = calls_of points.
Proof. reflexivity. Qed.

(** With the mark left out, the marked run is the run. *)
Lemma authenticate_points_calls env url callbackScheme :
  calls_of (authenticate_points env url callbackScheme)
  = authenticate env url callbackScheme.
Proof.
  unfold authenticate_points, authenticate. cbv zeta.
  rewrite calls_of_call. f_equal.
  destruct (net_WSAStartup env =? 0); cbn [negb]; [|reflexivity].
  rewrite calls_of_call. f_equal.
  destruct (net_socket env =? INVALID_SOCKET); [reflexivity|].
  rewrite calls_of_call. f_equal.
  destruct (net_bind env =? SOCKET_ERROR); [reflexivity|].
  rewrite !calls_of_call. do 2 f_equal.
  destruct (net_listen env =? SOCKET_ERROR); [reflexivity|].
  rewrite !calls_of_call. do 3 f_equal.
  destruct (net_accept env =? INVALID_SOCKET); [reflexivity|].
  destruct (recv_call env (map (net_stack env) (seq 0 4096))
              (Z.of_nat (length (map (net_stack env) (seq 0 4096))) - 1))
    as [bytesRead buf1].
  rewrite calls_of_call. f_equal.
  destruct (bytesRead <=? 0); [reflexivity|].
  destruct (store buf1 bytesRead NUL) as [buf2|]; [|reflexivity].
  rewrite !calls_of_call. do 4 f_equal.
  destruct (c_string buf2) as [request|]; [|reflexivity].
  rewrite calls_of_parse.
  destruct (regex_search request requestLineRegex) as [path|];
    [|reflexivity].
  destruct (find "?" path); reflexivity.
Qed.

Lemma resolve_callback_point callbackScheme request :
  match regex_search request requestLineRegex with
  | Some path =>
      match find "?" path with
      | None => [Call (Resolve JSNull)]
      | Some qPos =>
          [Call (Resolve (JSString (callbackScheme ++ lit "://callback"
                                    ++ substr path qPos)))]
      end
  | None => [Call (Resolve JSNull)]
  end = [Call (Resolve (callback_value callbackScheme request))].
Proof.
  unfold callback_value.
  destruct (regex_search request requestLineRegex) as [path|];
    [|reflexivity].
  destruct (find "?" path); reflexivity.
Qed.

(** The marked run when a connection was accepted and [data] had
    arrived. *)
Lemma authenticate_points_received env url callbackScheme data :
  connected env = true ->
  net_recv env = Some data ->
  data <> [] ->
  authenticate_points env url callbackScheme
  = map Call (listening_events env url)
    ++ [Call (recv (net_accept env) 4095
                   (Z.of_nat (length (firstn 4095 data))));
        Call (send (net_accept env) response (strlen response)
                   (net_send env));
        Call (closesocket (net_accept env));
        Call (closesocket (net_socket env));
        Call WSACleanup;
        Parse (request_seen data);
        Call (Resolve (callback_value callbackScheme (request_seen data)))].
Proof.
  intros Hc Hrecv Hne.
  apply connected_true in Hc as [Hs Ha].
  apply setup_ok_true in Hs as (H1 & H2 & H3 & H4).
  unfold authenticate_points, listening_events.
  rewrite H1, H2, H3, H4, Ha. cbn [negb app map].
  do 8 f_equal.
  rewrite stack_buffer_length.
  change (Z.of_nat 4096 - 1) with 4095.
  destruct (@read_request env _ data (stack_buffer_length env) Hrecv)
    as (buf1 & buf2 & Hcall & Hread & Hstore & Hstr).
  rewrite Hcall. cbv beta iota.
  destruct (Hread Hne) as [Hpos _].
  replace (Z.of_nat (length (firstn 4095 data)) <=? 0) with false
    by (symmetry; apply Z.leb_gt; lia).
  rewrite Hstore, Hstr.
  do 6 f_equal. apply resolve_callback_point.
Qed.

(** C9: once bytes are read, the run is: the calls up to [recv], then
    the fixed 200 response, all 175 characters of it, sent to the
    client, both sockets closed and Winsock released, and only then the
    start of parsing, followed by the call on the promise with the value
    parsed from the request.  This order holds whatever the request
    parses to (a match with a query, no match, or a match without a
    query), and the value resolved does not depend on what [send]
    returns.  The marked run is the run of [authenticate] itself. *)
Theorem authenticate_responds_before_parsing env url callbackScheme data :
  connected env = true ->
  net_recv env = Some data ->
  data <> [] ->
  let client := net_accept env in
  let text :=
    lit "HTTP/1.1 200 OK" ++ CRLF
    ++ lit "Content-Type: text/html" ++ CRLF
    ++ lit "Connection: close" ++ CRLF ++ CRLF
    ++ lit "<html><body><p>Authentication complete. You may close this tab.</p><script>window.close()</script></body></html>" in
  authenticate_points env url callbackScheme
  = map Call (listening_events env url)
    ++ [Call (recv client 4095 (Z.of_nat (length (firstn 4095 data))));
        Call (send client text 175 (net_send env));
        Call (closesocket client);
        Call (closesocket (net_socket env));
        Call WSACleanup;
        Parse (request_seen data);
        Call (Resolve (callback_value callbackScheme (request_seen data)))]
  /\ calls_of (authenticate_points env url callbackScheme)
     = authenticate env url callbackScheme
  /\ length text = 175%nat
  /\ (forall ret,
      promise_calls (authenticate (with_send env ret) url callbackScheme)
      = promise_calls (authenticate env url callbackScheme)).
Proof.
  intros Hc Hrecv Hne. cbv zeta. split; [|split; [|split]].
  - rewrite (@authenticate_points_received env url callbackScheme data
               Hc Hrecv Hne).
    reflexivity.
  - apply authenticate_points_calls.
  - reflexivity.
  - intros ret. rewrite !promise_calls_result.
    now rewrite with_send_result.
Qed.

Lemma authenticate_responds_before_parsing_witness :
  promise_calls
    (authenticate
       (with_send (demo_env "GET /callback?code=abc123 HTTP/1.1") (-1))
       (lit "https://idp.example/authorize") (lit "myapp"))
  = promise_calls
      (authenticate (demo_env "GET /callback?code=abc123 HTTP/1.1")
         (lit "https://idp.example/authorize") (lit "myapp")).
Proof.
  refine (proj2 (proj2 (proj2 (@authenticate_responds_before_parsing
                          (demo_env "GET /callback?code=abc123 HTTP/1.1")
                          (lit "https://idp.example/authorize")
                          (lit "myapp")
                          (lit "GET /callback?code=abc123 HTTP/1.1")
                          _ _ _))) (-1)).
  - reflexivity.
  - reflexivity.
  - simpl. discriminate.
Defined.
